(** * Tic-Tac-Toe: the game logic of [my-tic-tac-toe-app/script.js]

    A shallow embedding of the rules engine ([makeMove], [checkWin],
    [checkDraw], [handleWin], [handleDraw], [switchPlayer],
    [resetGameState]) and of the computer player ([makeComputerMove],
    [findBestMove]).  The module-level [gameState] object is threaded
    through a small state monad; everything that only touches the DOM
    (text, classes, focus, confetti) is left out. *)

From Stdlib Require Import ZArith QArith Qround Lia.
From stdpp Require Import base tactics option list sorting.

Local Open Scope Z_scope.

(** ** Data model *)

(** The two player marks, the strings ['X'] and ['O']. *)
Inductive Mark : Set := X | O.

(** A board slot: the empty string or a mark. *)
Inductive Cell : Set := Empty | Mk (m : Mark).

(** [gameState.mode]: ['two-player'] or ['vs-computer'] ([null] is [None]). *)
Inductive Mode : Set := TwoPlayer | VsComputer.

#[global] Instance Mark_eq_dec : EqDecision Mark.
Proof. solve_decision. Defined.
#[global] Instance Cell_eq_dec : EqDecision Cell.
Proof. solve_decision. Defined.
#[global] Instance Mode_eq_dec : EqDecision Mode.
Proof. solve_decision. Defined.

(** [gameState.board], a JS array of strings. *)
Abbreviation Board := (list Cell).

(** One entry of [WINNING_COMBINATIONS]; the source destructures it as
    [[a, b, c]]. *)
Abbreviation WinLine := (Z * Z * Z)%type.

(** [arr[i]] for a JS number [i]: a read outside the array yields
    [undefined], here [None].  Indices are integers: the handlers pass
    [parseInt] of a cell's [data-index], and [NaN] reads [undefined] like
    any index outside the array. *)
Definition get {A : Type} (board : list A) (i : Z) : option A :=
  if i <? 0 then None else board !! Z.to_nat i.

(** [board[i] = v].  Every write of the source is guarded by a read that
    found [''] at the same index ([makeMove]) or uses an index collected
    from the array itself ([findBestMove]), so it never falls outside the
    array; see [get_Some_in_range].  Outside the array (where JS would
    grow the array or define a property) this model leaves the list as it
    is. *)
Definition put (board : Board) (i : Z) (v : Cell) : Board :=
  if i <? 0 then board else <[Z.to_nat i := v]> board.

(** JS truthiness of a slot value: [undefined] and [''] are falsy. *)
Definition truthy (v : option Cell) : bool :=
  match v with
  | Some (Mk _) => true
  | _ => false
  end.

(** JS [===] on slot values. *)
Definition strict_eq (v w : option Cell) : bool := bool_decide (v = w).

Definition WINNING_COMBINATIONS : list WinLine :=
  [ (0, 1, 2);   (* Top row *)
    (3, 4, 5);   (* Middle row *)
    (6, 7, 8);   (* Bottom row *)
    (0, 3, 6);   (* Left column *)
    (1, 4, 7);   (* Middle column *)
    (2, 5, 8);   (* Right column *)
    (0, 4, 8);   (* Diagonal top-left to bottom-right *)
    (2, 4, 6) ]. (* Diagonal top-right to bottom-left *)

(** The [if] condition inside the loop of [checkWin]. *)
Definition line_complete (board : Board) (combination : WinLine) : bool :=
  let '(a, b, c) := combination in
  truthy (get board a)
  && strict_eq (get board a) (get board b)
  && strict_eq (get board a) (get board c).

(** The [for ... of] loop of [checkWin], with its early [return]. *)
Fixpoint checkWin_loop (board : Board) (combinations : list WinLine)
  : option WinLine :=
  match combinations with
  | [] => None
  | combination :: rest =>
      if line_complete board combination then Some combination
      else checkWin_loop board rest
  end.

(** [checkWin] on a given board ([null] is [None]). *)
Definition checkWin_on (board : Board) : option WinLine :=
  checkWin_loop board WINNING_COMBINATIONS.

(** [checkDraw] on a given board: [board.every(cell => cell !== '')]. *)
Definition checkDraw_on (board : Board) : bool :=
  forallb (fun cell => bool_decide (cell <> Empty)) board.

(** ** The game state and its monad *)

(** The module-level [gameState] object. *)
Record GameState : Set := mkGameState {
  board : Board;
  currentPlayer : Mark;
  gameActive : bool;
  winner : option Mark;
  mode : option Mode;
  isComputerTurn : bool
}.

(** The object literal [gameState] is initialised with. *)
Definition initialGameState : GameState :=
  {| board := [Empty; Empty; Empty; Empty; Empty; Empty; Empty; Empty; Empty];
     currentPlayer := X;
     gameActive := true;
     winner := None;
     mode := None;
     isComputerTurn := false |}.

(** Code that reads and assigns fields of [gameState]. *)
Definition State (A : Type) : Type := GameState -> A * GameState.

Definition ret {A : Type} (a : A) : State A := fun s => (a, s).

#[global] Instance State_ret : MRet State := @ret.
#[global] Instance State_bind : MBind State :=
  fun A B f m s => let '(a, s') := m s in f a s'.

Definition gets {A : Type} (f : GameState -> A) : State A := fun s => (f s, s).

Definition set_board (v : Board) : State unit := fun s =>
  (tt, mkGameState v (currentPlayer s) (gameActive s) (winner s) (mode s)
         (isComputerTurn s)).
Definition set_currentPlayer (v : Mark) : State unit := fun s =>
  (tt, mkGameState (board s) v (gameActive s) (winner s) (mode s)
         (isComputerTurn s)).
Definition set_gameActive (v : bool) : State unit := fun s =>
  (tt, mkGameState (board s) (currentPlayer s) v (winner s) (mode s)
         (isComputerTurn s)).
Definition set_winner (v : option Mark) : State unit := fun s =>
  (tt, mkGameState (board s) (currentPlayer s) (gameActive s) v (mode s)
         (isComputerTurn s)).
Definition set_mode (v : option Mode) : State unit := fun s =>
  (tt, mkGameState (board s) (currentPlayer s) (gameActive s) (winner s) v
         (isComputerTurn s)).
Definition set_isComputerTurn (v : bool) : State unit := fun s =>
  (tt, mkGameState (board s) (currentPlayer s) (gameActive s) (winner s)
         (mode s) v).

(** [gameState.board[index] = v]. *)
Definition write_cell (index : Z) (v : Cell) : State unit :=
  b ← gets board; set_board (put b index v).

(** ** Rules engine *)

Definition checkWin : State (option WinLine) :=
  b ← gets board; ret (checkWin_on b).

Definition checkDraw : State bool :=
  b ← gets board; ret (checkDraw_on b).

Definition handleWin (winningCells : WinLine) : State unit :=
  set_gameActive false;;
  p ← gets currentPlayer;
  set_winner (Some p).

Definition handleDraw : State unit :=
  set_gameActive false.

Definition switchPlayer : State unit :=
  p ← gets currentPlayer;
  set_currentPlayer (if decide (p = X) then O else X).

(** The synchronous part of [makeComputerMove]; the function then hands
    [computerTurn] below to [setTimeout]. *)
Definition makeComputerMove : State unit :=
  set_isComputerTurn true.

(** [makeMove] itself returns nothing.  The result below names the branch
    it took: the early [return] of the validation, [handleWin] with the
    line found, [handleDraw], or [switchPlayer]. *)
Inductive MoveResult : Set :=
| InvalidMove
| Win (line : WinLine)
| Draw
| Continue.

Definition makeMove (index : Z) : State MoveResult :=
  active ← gets gameActive;
  b ← gets board;
  if negb active || negb (strict_eq (get b index) (Some Empty)) then
    ret InvalidMove
  else
    p ← gets currentPlayer;
    write_cell index (Mk p);;
    winResult ← checkWin;
    match winResult with
    | Some line => handleWin line;; ret (Win line)
    | None =>
        full ← checkDraw;
        if (full : bool) then handleDraw;; ret Draw
        else
          switchPlayer;;
          m ← gets mode;
          p' ← gets currentPlayer;
          active' ← gets gameActive;
          (if bool_decide (m = Some VsComputer) && bool_decide (p' = O)
              && active'
           then makeComputerMove else ret tt);;
          ret Continue
    end.

Definition resetGameState : State unit :=
  set_board [Empty; Empty; Empty; Empty; Empty; Empty; Empty; Empty; Empty];;
  set_currentPlayer X;;
  set_gameActive true;;
  set_winner None;;
  set_isComputerTurn false.

Definition restartGame : State unit := resetGameState.

Definition selectMode (m : Mode) : State unit :=
  set_mode (Some m);;
  resetGameState.

Definition showModeSelection : State unit := resetGameState.

(** A run of [makeMove] calls, collecting the branch each one took. *)
Fixpoint playMoves (indices : list Z) : State (list MoveResult) :=
  match indices with
  | [] => ret []
  | index :: rest =>
      r ← makeMove index;
      rs ← playMoves rest;
      ret (r :: rs)
  end.

(** ** Computer player *)

(** [board.map((val, idx) => val === '' ? idx : -1).filter(idx => idx !== -1)] *)
Definition emptyIndices_of (b : Board) : list Z :=
  filter (fun idx => idx <> -1)
         (imap (fun idx val => if decide (val = Empty) then Z.of_nat idx else -1) b).

(** [arr.includes(x)] on an array of numbers. *)
Definition includes (arr : list Z) (x : Z) : bool := bool_decide (x ∈ arr).

(** [Math.floor(rnd * len)], for [rnd] the value of [Math.random()], a
    double and so a rational.  The product is taken exactly; the rounding
    of the floating-point product is not modelled. *)
Definition random_below (rnd : Q) (len : nat) : Z :=
  Qfloor (rnd * inject_Z (Z.of_nat len)).

(** [arr[Math.floor(Math.random() * arr.length)]]; [None] is [undefined]. *)
Definition random_element (rnd : Q) (arr : list Z) : option Z :=
  get arr (random_below rnd (length arr)).

(** What [Math.random()] may return: a number in [0, 1). *)
Definition random_ok (rnd : Q) : bool :=
  Qle_bool 0 rnd && negb (Qle_bool 1 rnd).

(** The two [for ... of] loops of [findBestMove]: place [mark] at each
    index in turn, ask [checkWin], and take the mark away again, on the
    early [return] as well as on the way to the next index. *)
Fixpoint tryEach (mark : Mark) (indices : list Z) : State (option Z) :=
  match indices with
  | [] => ret None
  | index :: rest =>
      write_cell index (Mk mark);;
      w ← checkWin;
      if w is Some _ then
        write_cell index Empty;;
        ret (Some index)
      else
        write_cell index Empty;;
        tryEach mark rest
  end.

(** [findBestMove], with the value of the one [Math.random()] call it may
    make passed in.  [Some (-1)] is the [-1] of the source, [None] the
    [undefined] an array read outside its bounds would give. *)
Definition findBestMove (rnd : Q) : State (option Z) :=
  b ← gets board;
  let emptyIndices := emptyIndices_of b in
  if bool_decide (length emptyIndices = 0%nat) then ret (Some (-1))
  else
    (* 1. Try to win *)
    won ← tryEach O emptyIndices;
    if won is Some index then ret (Some index)
    else
      (* 2. Block opponent from winning *)
      blocked ← tryEach X emptyIndices;
      if blocked is Some index then ret (Some index)
      else
        (* 3. Take center if available *)
        if includes emptyIndices 4 then ret (Some 4)
        else
          (* 4. Take a corner if available *)
          let corners := filter (fun c => includes emptyIndices c = true) [0; 2; 6; 8] in
          if bool_decide (0 < length corners)%nat then
            ret (random_element rnd corners)
          else
            (* 5. Take any available edge *)
            let edges := filter (fun e => includes emptyIndices e = true) [1; 3; 5; 7] in
            if bool_decide (0 < length edges)%nat then
              ret (random_element rnd edges)
            else
              (* Fallback: random empty cell *)
              ret (random_element rnd emptyIndices).

(** How a callback ends. *)
Inductive Completion : Set := Normal | Throws.

(** The function [makeComputerMove] passes to [setTimeout].  With
    [moveIndex] [undefined] the lookup [cells[moveIndex]] is [undefined]
    too and the first use of [cell] throws. *)
Definition computerTurn (rnd : Q) : State Completion :=
  active ← gets gameActive;
  if negb active then
    set_isComputerTurn false;;
    ret Normal
  else
    moveIndex ← findBestMove rnd;
    match moveIndex with
    | None => ret Throws
    | Some moveIndex =>
        (if bool_decide (moveIndex <> -1) then
           write_cell moveIndex (Mk O);;
           winResult ← checkWin;
           match winResult with
           | Some line => handleWin line
           | None =>
               full ← checkDraw;
               if (full : bool) then handleDraw else switchPlayer
           end
         else ret tt);;
        set_isComputerTurn false;;
        ret Normal
    end.

(** ** Sessions: what can happen to [gameState] *)

(** The ways the page changes [gameState]: the mode buttons, the restart
    button, a [makeMove] call with some index, and the timer of
    [makeComputerMove] firing.  Calls and timers are allowed at any time,
    which covers every interleaving the page can produce. *)
Inductive Event : Set :=
| EvSelectMode (m : Mode)
| EvShowModeSelection
| EvRestart
| EvMove (index : Z)
| EvComputerTimer (rnd : Q).

Definition event_ok (e : Event) : bool :=
  match e with
  | EvComputerTimer rnd => random_ok rnd
  | _ => true
  end.

Definition step (s : GameState) (e : Event) : GameState :=
  match e with
  | EvSelectMode m => (selectMode m s).2
  | EvShowModeSelection => (showModeSelection s).2
  | EvRestart => (restartGame s).2
  | EvMove index => (makeMove index s).2
  | EvComputerTimer rnd => (computerTurn rnd s).2
  end.

Definition run (events : list Event) (s : GameState) : GameState :=
  foldl step s events.

(** An event that starts a new game. *)
Definition is_reset (e : Event) : bool :=
  match e with
  | EvSelectMode _ | EvShowModeSelection | EvRestart => true
  | _ => false
  end.

(** The states a session can be in. *)
Definition reachable (s : GameState) : Prop :=
  exists events, forallb event_ok events = true /\ run events initialGameState = s.

(** ** Worked games *)

(** X takes the top row in a two-player game. *)
Definition top_row_game : list Event :=
  [EvSelectMode TwoPlayer; EvMove 0; EvMove 3; EvMove 1; EvMove 4; EvMove 2].

(** Eight moves of a game that fills the board without a line; the ninth
    goes to cell 8. *)
Definition drawn_game_prefix : list Event :=
  [EvMove 0; EvMove 1; EvMove 2; EvMove 4; EvMove 3; EvMove 5; EvMove 7;
   EvMove 6].

(** ** Vocabulary of the specification *)

(** The other player. *)
Definition other (p : Mark) : Mark :=
  match p with
  | X => O
  | O => X
  end.

(** Who moves in the [k]-th accepted move of a game, counting from 0. *)
Definition nth_player (k : nat) : Mark := if Nat.even k then X else O.

(** How many calls of a run took the [switchPlayer] branch. *)
Fixpoint count_continue (results : list MoveResult) : nat :=
  match results with
  | [] => 0
  | Continue :: rest => S (count_continue rest)
  | _ :: rest => count_continue rest
  end.

(** The state [makeMove] leaves behind on its [switchPlayer] branch. *)
Definition after_continue (s : GameState) (b' : Board) : GameState :=
  mkGameState b' (other (currentPlayer s)) true (winner s) (mode s)
    (if bool_decide (mode s = Some VsComputer)
        && bool_decide (other (currentPlayer s) = O)
     then true else isComputerTurn s).

(** With [m] written into cell [i], [checkWin] reports a line. *)
Definition wins_with (m : Mark) (b : Board) (i : Z) : bool :=
  bool_decide (is_Some (checkWin_on (put b i (Mk m)))).

(** Cell [i] is empty and placing [m] there produces a win per [checkWin]. *)
Definition wins_at (m : Mark) (b : Board) (i : Z) : Prop :=
  get b i = Some Empty /\ is_Some (checkWin_on (put b i (Mk m))).

(** The lowest such cell. *)
Definition least_win (m : Mark) (b : Board) (i : Z) : Prop :=
  wins_at m b i /\ forall j, wins_at m b j -> i <= j.

(** An empty cell among the given candidates. *)
Definition empty_among (candidates : list Z) (b : Board) (i : Z) : Prop :=
  i ∈ candidates /\ get b i = Some Empty.

(** The value [findBestMove] returns, as a function of the board alone. *)
Definition bestMove_of (rnd : Q) (b : Board) : option Z :=
  let emptyIndices := emptyIndices_of b in
  if bool_decide (length emptyIndices = 0%nat) then Some (-1)
  else
    match find (wins_with O b) emptyIndices with
    | Some index => Some index
    | None =>
        match find (wins_with X b) emptyIndices with
        | Some index => Some index
        | None =>
            if includes emptyIndices 4 then Some 4
            else
              let corners :=
                filter (fun c => includes emptyIndices c = true) [0; 2; 6; 8] in
              if bool_decide (0 < length corners)%nat then
                random_element rnd corners
              else
                let edges :=
                  filter (fun e => includes emptyIndices e = true) [1; 3; 5; 7] in
                if bool_decide (0 < length edges)%nat then
                  random_element rnd edges
                else random_element rnd emptyIndices
        end
    end.

(** No event of the list starts a new game. *)
Definition no_reset (events : list Event) : bool :=
  forallb (fun e => negb (is_reset e)) events.

(** The game is over and [winner] records how it ended: unset on a full
    board without a line, set on a board with a line. *)
Definition ended (s : GameState) : Prop :=
  (winner s = None /\ checkWin_on (board s) = None /\
   checkDraw_on (board s) = true)
  \/ (exists p, winner s = Some p /\ is_Some (checkWin_on (board s))).

(** What every state of a session satisfies. *)
Definition session_ok (s : GameState) : Prop :=
  length (board s) = 9%nat /\
  (gameActive s = true -> winner s = None) /\
  (gameActive s = false -> ended s).

(** ** The eight lines as the specification lists them *)

Definition spec_rows : list WinLine :=
  (fun r => (3 * r, 3 * r + 1, 3 * r + 2)) <$> [0; 1; 2].
Definition spec_columns : list WinLine :=
  (fun c => (c, c + 3, c + 6)) <$> [0; 1; 2].
Definition spec_diagonals : list WinLine := [ (0, 4, 8); (2, 4, 6) ].

(** Rows top to bottom, columns left to right, then the two diagonals. *)
Definition spec_lines : list WinLine :=
  spec_rows ++ spec_columns ++ spec_diagonals.

(** Three identical non-empty cells along a line. *)
Definition three_in_a_row (board : Board) (l : WinLine) : Prop :=
  exists m : Mark,
    get board l.1.1 = Some (Mk m) /\
    get board l.1.2 = Some (Mk m) /\
    get board l.2 = Some (Mk m).

(** ** Keyboard and mouse handlers *)

(** [event.key], as far as the handlers tell keys apart. *)
Inductive Key : Set :=
| ArrowUp | ArrowDown | ArrowLeft | ArrowRight | Enter | Space | OtherKey.

(** [handleArrowNavigation]: the index of the cell that receives the focus,
    [None] when the function focuses nothing. *)
Definition handleArrowNavigation (key : Key) (currentIndex : Z) : option Z :=
  let index := if 0 <=? currentIndex then currentIndex else 0 in
  let targetIndex :=
    match key with
    | ArrowUp =>
        let t := index - 3 in if t <? 0 then index + 6 else t
    | ArrowDown =>
        let t := index + 3 in if 8 <? t then index - 6 else t
    | ArrowLeft =>
        if Z.rem index 3 =? 0 then index + 2 else index - 1
    | ArrowRight =>
        if Z.rem index 3 =? 2 then index - 2 else index + 1
    | _ => -1
    end in
  if (0 <=? targetIndex) && (targetIndex <=? 8) then Some targetIndex
  else None.

(** [handleCellClick] on the cell whose [data-index] parses to [index]. *)
Definition handleCellClick (index : Z) : State unit :=
  busy ← gets isComputerTurn;
  if (busy : bool) then ret tt
  else makeMove index;; ret tt.

(** [handleCellKeydown] on that cell; the result is the focus move. *)
Definition handleCellKeydown (key : Key) (index : Z) : State (option Z) :=
  busy ← gets isComputerTurn;
  if (busy : bool) then ret None
  else
    match key with
    | Enter => makeMove index;; ret None
    | _ => ret (handleArrowNavigation key index)
    end.

(** [handleGlobalKeydown].  [hidden] is whether the game area carries the
    class [hidden]; [focused] is the index of [document.activeElement] when
    that is a cell.  The result is the focus move. *)
Definition handleGlobalKeydown (hidden : bool) (key : Key) (focused : option Z)
  : State (option Z) :=
  if hidden then ret None
  else
    busy ← gets isComputerTurn;
    if (busy : bool) then ret None
    else
      let focus :=
        match key, focused with
        | (ArrowUp | ArrowDown | ArrowLeft | ArrowRight), None => Some 0
        | _, _ => None
        end in
      match key, focused with
      | Enter, Some index => makeMove index;; ret focus
      | _, _ => ret focus
      end.

(** A [keydown] of Enter on the focused cell [index]: the listener of the
    cell runs, then the event bubbles to the listener of the document. *)
Definition enterOnCell (hidden : bool) (index : Z) : State unit :=
  handleCellKeydown Enter index;;
  handleGlobalKeydown hidden Enter (Some index);;
  ret tt.

(** [handleRestartKeydown]. *)
Definition handleRestartKeydown (key : Key) : State unit :=
  match key with
  | Enter | Space => restartGame
  | _ => ret tt
  end.

(** ** The page: game state and pending timers *)

(** [gameState] together with the number of [setTimeout] callbacks of
    [makeComputerMove] that have not run yet.  Nothing in the source ever
    cancels one of them. *)
Record Page : Set := mkPage {
  game : GameState;
  pendingTimers : nat
}.

(** What the user and the browser do to the page.  Enter on a focused
    cell is not listed apart: it acts on [gameState] as a click on the
    cell does, and its second call of [makeMove] is rejected or blocked, so
    it starts no timer of its own. *)
Inductive PageEvent : Set :=
| PgSelectMode (m : Mode)
| PgChangeMode
| PgRestart
| PgClick (index : Z)
| PgTimer (rnd : Q).

(** One event.  [handleCellClick] calls [makeMove] only with
    [isComputerTurn] clear, and [makeComputerMove] is the one place that
    sets it, so a click has reached [makeComputerMove], and with it
    [setTimeout], exactly when it set the flag.  A timer can fire only
    when one is pending; [None] says the event cannot happen. *)
Definition page_step (p : Page) (e : PageEvent) : option Page :=
  match e with
  | PgSelectMode m => Some (mkPage (selectMode m (game p)).2 (pendingTimers p))
  | PgChangeMode => Some (mkPage (showModeSelection (game p)).2 (pendingTimers p))
  | PgRestart => Some (mkPage (restartGame (game p)).2 (pendingTimers p))
  | PgClick index =>
      let g' := (handleCellClick index (game p)).2 in
      Some (mkPage g'
              (if negb (isComputerTurn (game p)) && isComputerTurn g'
               then S (pendingTimers p) else pendingTimers p))
  | PgTimer rnd =>
      match pendingTimers p with
      | 0%nat => None
      | S n =>
          if random_ok rnd then Some (mkPage (computerTurn rnd (game p)).2 n)
          else None
      end
  end.

Fixpoint page_run (events : list PageEvent) (p : Page) : option Page :=
  match events with
  | [] => Some p
  | e :: rest =>
      match page_step p e with
      | Some p' => page_run rest p'
      | None => None
      end
  end.

(** The page as loaded: the initial [gameState], no timer. *)
Definition initialPage : Page := mkPage initialGameState 0.

(** The event is a click or a timer: the game in progress goes on. *)
Definition same_game (e : PageEvent) : bool :=
  match e with
  | PgClick _ | PgTimer _ => true
  | _ => false
  end.

(** A vs-computer session in which the restart button and a second click
    come before the first timer fires. *)
Definition restart_race : list PageEvent :=
  [PgSelectMode VsComputer; PgClick 0; PgRestart; PgClick 0; PgTimer (1 # 2);
   PgClick 1; PgTimer (1 # 2); PgTimer (1 # 2)].

(** ** Vocabulary of the further properties *)

(** How many cells of the board hold [c]. *)
Definition count_cell (c : Cell) (b : Board) : nat :=
  length (filter (fun c' => c' = c) b).

(** How many calls of a run were accepted. *)
Fixpoint count_accepted (results : list MoveResult) : nat :=
  match results with
  | [] => 0
  | InvalidMove :: rest => count_accepted rest
  | _ :: rest => S (count_accepted rest)
  end.

(** The three cells of the line all hold the mark [m]. *)
Definition line_of (m : Mark) (b : Board) (l : WinLine) : Prop :=
  get b l.1.1 = Some (Mk m) /\ get b l.1.2 = Some (Mk m) /\
  get b l.2 = Some (Mk m).

(** The index is one of the three of the line. *)
Definition on_line (i : Z) (l : WinLine) : Prop :=
  i = l.1.1 \/ i = l.1.2 \/ i = l.2.

(** A game in progress has no complete line and an empty cell. *)
Definition in_progress_ok (s : GameState) : Prop :=
  gameActive s = true ->
  checkWin_on (board s) = None /\ checkDraw_on (board s) = false.

(** The next key press, [key], after one that moved the focus to [from]. *)
Definition then_key (key : Key) (from : option Z) : option Z :=
  match from with
  | Some i => handleArrowNavigation key i
  | None => None
  end.

(** A vs-computer game played on without restart or change of mode: the
    player to move, the flag [isComputerTurn] and the pending timer agree,
    X has made as many moves as O or one more, and a recorded winner is the
    player who moved last. *)
Definition vs_game_ok (p : Page) : Prop :=
  let g := game p in
  mode g = Some VsComputer /\
  match gameActive g, currentPlayer g with
  | true, X =>
      isComputerTurn g = false /\ pendingTimers p = 0%nat /\
      count_cell (Mk X) (board g) = count_cell (Mk O) (board g) /\
      winner g = None
  | true, O =>
      isComputerTurn g = true /\ pendingTimers p = 1%nat /\
      count_cell (Mk X) (board g) = S (count_cell (Mk O) (board g)) /\
      winner g = None
  | false, X =>
      isComputerTurn g = false /\ pendingTimers p = 0%nat /\
      count_cell (Mk X) (board g) = S (count_cell (Mk O) (board g)) /\
      (winner g = None \/ winner g = Some X)
  | false, O =>
      isComputerTurn g = false /\ pendingTimers p = 0%nat /\
      count_cell (Mk X) (board g) = count_cell (Mk O) (board g) /\
      (winner g = None \/ winner g = Some O)
  end /\
  in_progress_ok g /\
  (forall w, winner g = Some w ->
     exists line, line ∈ WINNING_COMBINATIONS /\ line_of w (board g) line).

(** Where a run of [makeMove] calls from a reset may stand: X moved first
    and the players took turns. *)
Definition turns_ok (s : GameState) : Prop :=
  match gameActive s, currentPlayer s with
  | true, X | false, O =>
      count_cell (Mk X) (board s) = count_cell (Mk O) (board s)
  | true, O | false, X =>
      count_cell (Mk X) (board s) = S (count_cell (Mk O) (board s))
  end.

(** The key is one of the four arrows. *)
Definition is_arrow (key : Key) : bool :=
  match key with
  | ArrowUp | ArrowDown | ArrowLeft | ArrowRight => true
  | _ => false
  end.

(** ** Facts about array reads and writes *)

Lemma get_Some_in_range (board : Board) i c :
  get board i = Some c -> 0 <= i < Z.of_nat (length board).
Proof.
  unfold get. destruct (Z.ltb_spec i 0) as [|Hi]; [done|].
  intros H%lookup_lt_Some. lia.
Qed.

Lemma put_length (board : Board) i v : length (put board i v) = length board.
Proof. unfold put. destruct (i <? 0); [done|]. apply length_insert. Qed.

Lemma get_put_eq (board : Board) i v c :
  get board i = Some c -> get (put board i v) i = Some v.
Proof.
  intros H. pose proof (get_Some_in_range _ _ _ H) as Hr.
  unfold get, put. destruct (Z.ltb_spec i 0); [lia|].
  apply list_lookup_insert_eq. lia.
Qed.

Lemma get_put_ne (board : Board) i j v :
  i <> j -> get (put board i v) j = get board j.
Proof.
  intros Hne. unfold get, put.
  destruct (Z.ltb_spec j 0); [done|]. destruct (Z.ltb_spec i 0); [done|].
  apply list_lookup_insert_ne. lia.
Qed.

Lemma put_put (board : Board) i v w :
  put (put board i v) i w = put board i w.
Proof.
  unfold put. destruct (i <? 0); [done|]. apply list_insert_insert_eq.
Qed.

Lemma put_same (board : Board) i c : get board i = Some c -> put board i c = board.
Proof.
  unfold get, put. destruct (i <? 0); [done|]. apply list_insert_id.
Qed.

Lemma line_complete_iff (board : Board) (l : WinLine) :
  line_complete board l = true <-> three_in_a_row board l.
Proof.
  destruct l as [[a b] c]. unfold line_complete, three_in_a_row, strict_eq; simpl.
  rewrite !andb_true_iff, !bool_decide_eq_true. split.
  - intros [[Ht Hb] Hc]. destruct (get board a) as [[|m]|] eqn:Ha; try done.
    exists m. by rewrite <- Hb, <- Hc.
  - intros (m & -> & -> & ->). done.
Qed.

Lemma checkWin_loop_Some (board : Board) (ls : list WinLine) l :
  checkWin_loop board ls = Some l <->
  exists k, ls !! k = Some l /\ line_complete board l = true /\
    forall j l', (j < k)%nat -> ls !! j = Some l' -> line_complete board l' = false.
Proof.
  induction ls as [|l0 ls IH]; simpl.
  - split; [done|]. by intros (k & ? & _).
  - destruct (line_complete board l0) eqn:E.
    + split.
      * intros [= <-]. exists 0%nat. repeat split; [done|]. intros; lia.
      * intros (k & Hk & Hl & Hmin). destruct k as [|k]; [by simplify_eq/=|].
        specialize (Hmin 0%nat l0 ltac:(lia) eq_refl). congruence.
    + rewrite IH. split.
      * intros (k & Hk & Hl & Hmin). exists (S k). repeat split; [done..|].
        intros [|j] l' Hj Hl'; simplify_eq/=; [done|]. eapply Hmin; [|done]. lia.
      * intros (k & Hk & Hl & Hmin). destruct k as [|k]; [simplify_eq/=; congruence|].
        exists k. repeat split; [done..|].
        intros j l' Hj Hl'. apply (Hmin (S j) l'); [lia|done].
Qed.

Lemma checkWin_loop_None (board : Board) (ls : list WinLine) :
  checkWin_loop board ls = None <->
  forall l, l ∈ ls -> line_complete board l = false.
Proof.
  induction ls as [|l0 ls IH]; simpl.
  - split; [|done]. intros _ l Hl. by apply elem_of_nil in Hl.
  - destruct (line_complete board l0) eqn:E.
    + split; [done|]. intros H. specialize (H l0 ltac:(left)). congruence.
    + rewrite IH. split.
      * intros H l [->|Hl]%elem_of_cons; auto.
      * intros H l Hl. apply H. by right.
Qed.

(** ** checkWin *)

(** C2: [checkWin] scans the eight lines in the order rows top to bottom,
    columns left to right, diagonal 0-4-8, diagonal 2-4-6; it returns a line
    exactly when some line holds three identical non-empty cells, the line
    returned is the first such line in that order, and it returns [None]
    exactly when no line does. *)
Theorem checkWin_first_complete_line (board : Board) :
  WINNING_COMBINATIONS = spec_lines /\
  length spec_lines = 8%nat /\
  (forall l, checkWin_on board = Some l <->
     exists k, spec_lines !! k = Some l /\ three_in_a_row board l /\
       forall j l', (j < k)%nat -> spec_lines !! j = Some l' ->
                    ~ three_in_a_row board l') /\
  ((exists l, checkWin_on board = Some l) <->
     exists l, l ∈ spec_lines /\ three_in_a_row board l) /\
  (checkWin_on board = None <->
     forall l, l ∈ spec_lines -> ~ three_in_a_row board l).
Proof.
  assert (Heq : WINNING_COMBINATIONS = spec_lines) by reflexivity.
  assert (Hnone : checkWin_on board = None <->
     forall l, l ∈ spec_lines -> ~ three_in_a_row board l).
  { unfold checkWin_on. rewrite checkWin_loop_None, Heq.
    split; intros H l Hl.
    - rewrite <- line_complete_iff. rewrite (H l Hl). done.
    - specialize (H l Hl). rewrite <- line_complete_iff in H.
      by destruct (line_complete board l). }
  split; [done|]. split; [done|]. split; [|split; [|done]].
  - intros l. unfold checkWin_on. rewrite checkWin_loop_Some, Heq.
    split; intros (k & Hk & Hl & Hmin); exists k; (split; [done|]).
    + split; [by apply line_complete_iff|]. intros j l' Hj Hl'.
      rewrite <- line_complete_iff. by rewrite (Hmin j l' Hj Hl').
    + split; [by apply line_complete_iff|]. intros j l' Hj Hl'.
      specialize (Hmin j l' Hj Hl'). rewrite <- line_complete_iff in Hmin.
      by destruct (line_complete board l').
  - split.
    + intros [l Hl]. unfold checkWin_on in Hl.
      apply checkWin_loop_Some in Hl as (k & Hk & Hc & _).
      exists l. split; [|by apply line_complete_iff].
      rewrite <- Heq. by eapply list_elem_of_lookup_2.
    + intros (l & Hl & H3).
      destruct (decide (checkWin_on board = None)) as [E|E].
      * exfalso. destruct Hnone as [Hn _]. by apply (Hn E l).
      * destruct (checkWin_on board) as [l'|]; [eauto|done].
Qed.

(** ** The rules engine *)

Ltac unfold_state :=
  unfold makeMove, computerTurn, resetGameState, restartGame, selectMode,
    showModeSelection, handleWin, handleDraw, switchPlayer, makeComputerMove,
    checkWin, checkDraw, write_cell, set_board, set_currentPlayer,
    set_gameActive, set_winner, set_mode, set_isComputerTurn, gets, ret,
    mbind, State_bind, mret, State_ret in *.

Lemma checkDraw_on_iff (b : Board) :
  checkDraw_on b = true <-> forall i c, get b i = Some c -> c <> Empty.
Proof.
  unfold checkDraw_on. rewrite forallb_forall. split.
  - intros H i c Hi. unfold get in Hi. destruct (i <? 0); [done|].
    apply list_elem_of_lookup_2, list_elem_of_In in Hi.
    specialize (H c Hi). by apply bool_decide_eq_true in H.
  - intros H c [k Hk]%list_elem_of_In%list_elem_of_lookup_1.
    apply bool_decide_eq_true. apply (H (Z.of_nat k)).
    unfold get. destruct (Z.ltb_spec (Z.of_nat k) 0); [lia|]. by rewrite Nat2Z.id.
Qed.

(** The four paths through [makeMove]. *)
Lemma makeMove_cases (s : GameState) (index : Z) :
  let p := currentPlayer s in
  let b' := put (board s) index (Mk p) in
  (makeMove index s = (InvalidMove, s) /\
   (gameActive s = false \/ get (board s) index <> Some Empty))
  \/
  (gameActive s = true /\ get (board s) index = Some Empty /\
   ((exists line, checkWin_on b' = Some line /\
       makeMove index s =
         (Win line, mkGameState b' p false (Some p) (mode s) (isComputerTurn s)))
    \/ (checkWin_on b' = None /\ checkDraw_on b' = true /\
        makeMove index s =
          (Draw, mkGameState b' p false (winner s) (mode s) (isComputerTurn s)))
    \/ (checkWin_on b' = None /\ checkDraw_on b' = false /\
        makeMove index s = (Continue, after_continue s b')))).
Proof.
  intros p b'. unfold_state. unfold strict_eq.
  destruct (gameActive s) eqn:Hactive; simpl; [|left; auto].
  case_bool_decide as Hempty; simpl; [|left; auto].
  right. split; [done|]. split; [done|]. fold p. fold b'.
  destruct (checkWin_on b') as [line|] eqn:Ew; simpl; [left; eauto|].
  right. destruct (checkDraw_on b') eqn:Ed; simpl; [left; auto|].
  right. split; [done|]. split; [done|]. unfold after_continue. fold p.
  rewrite Hactive.
  destruct p; simpl; repeat case_bool_decide; simpl; try done.
Qed.

(** C1: an accepted move writes the current player's mark into the chosen
    cell and nothing else into the board; then a completed line ends the
    game with the mover as winner and result [Win line], otherwise a full
    board ends it with result [Draw], otherwise the turn passes to the
    other player with result [Continue].  The line check comes first, so a
    move that fills the board and completes a line is a win. *)
Theorem makeMove_accepts (s : GameState) (index : Z) :
  gameActive s = true ->
  get (board s) index = Some Empty ->
  let p := currentPlayer s in
  let b' := put (board s) index (Mk p) in
  let r := (makeMove index s).1 in
  let s' := (makeMove index s).2 in
  board s' = b' /\ mode s' = mode s /\
  get b' index = Some (Mk p) /\
  (forall j, j <> index -> get b' j = get (board s) j) /\
  (checkDraw_on b' = true <-> forall i c, get b' i = Some c -> c <> Empty) /\
  match checkWin_on b' with
  | Some line =>
      r = Win line /\ gameActive s' = false /\ winner s' = Some p /\
      currentPlayer s' = p
  | None =>
      if checkDraw_on b' then
        r = Draw /\ gameActive s' = false /\ winner s' = winner s /\
        currentPlayer s' = p
      else
        r = Continue /\ gameActive s' = true /\ winner s' = winner s /\
        currentPlayer s' = other p
  end.
Proof.
  intros Hactive Hempty p b' r s'. subst r s'.
  assert (Hget : get b' index = Some (Mk p)) by (by eapply get_put_eq).
  assert (Hother : forall j, j <> index -> get b' j = get (board s) j).
  { intros j Hj. by apply get_put_ne. }
  pose proof (checkDraw_on_iff b') as Hdraw.
  destruct (makeMove_cases s index) as [[_ [H|H]]|(_ & _ & H)]; [congruence..|].
  fold p b' in H.
  destruct H as [(line & Hw & Hm)|[(Hw & Hd & Hm)|(Hw & Hd & Hm)]];
    rewrite Hm; simpl; do 5 (split; [done|]); rewrite Hw, ?Hd; done.
Qed.

Lemma makeMove_accepts_witness :
  let s := mkGameState
             [Mk X; Mk O; Mk X; Mk O; Mk X; Mk O; Mk O; Mk X; Empty]
             X true None (Some TwoPlayer) false in
  checkDraw_on (put (board s) 8 (Mk X)) = true /\
  (makeMove 8 s).1 = Win (0, 4, 8) /\ winner (makeMove 8 s).2 = Some X.
Proof.
  intros s.
  pose proof (makeMove_accepts s 8 eq_refl eq_refl) as H. simpl in H.
  destruct H as (_ & _ & _ & _ & _ & Hr & _ & Hw & _).
  split; [reflexivity|]. split; [exact Hr|exact Hw].
Defined.

(** C3: with a nine-cell board, a call whose index is below 0 or above 8,
    or that comes while the game is over, or that targets an occupied
    cell, takes the early [return]: nothing in the state changes and the
    result is [InvalidMove]. *)
Theorem makeMove_rejects (s : GameState) (index : Z) :
  length (board s) = 9%nat ->
  index < 0 \/ index > 8 \/ gameActive s = false \/
    (exists m, get (board s) index = Some (Mk m)) ->
  makeMove index s = (InvalidMove, s).
Proof.
  intros Hlen Hbad.
  destruct (makeMove_cases s index) as [[H _]|(Hactive & Hempty & _)]; [done|].
  exfalso. pose proof (get_Some_in_range _ _ _ Hempty) as Hr.
  destruct Hbad as [?|[?|[?|[m ?]]]]; [lia|lia|congruence|congruence].
Qed.

Lemma makeMove_rejects_witness :
  let s := mkGameState
             [Mk X; Mk O; Empty; Empty; Empty; Empty; Empty; Empty; Empty]
             X true None (Some TwoPlayer) false in
  makeMove 9 s = (InvalidMove, s) /\ makeMove (-1) s = (InvalidMove, s) /\
  makeMove 1 s = (InvalidMove, s).
Proof.
  intros s. split; [|split].
  - apply (makeMove_rejects s 9); [reflexivity|right; left; lia].
  - apply (makeMove_rejects s (-1)); [reflexivity|left; lia].
  - apply (makeMove_rejects s 1); [reflexivity|].
    right; right; right. exists O. reflexivity.
Defined.

(** C8: whatever the state, [resetGameState] leaves an empty nine-cell
    board, X to move, the game active and no winner; the mode is kept.  The
    restart button and both mode screens go through it. *)
Theorem resetGameState_initial (s : GameState) :
  let s' := (resetGameState s).2 in
  board s' = replicate 9 Empty /\
  currentPlayer s' = X /\ gameActive s' = true /\ winner s' = None /\
  isComputerTurn s' = false /\ mode s' = mode s /\
  board s' = board initialGameState /\
  currentPlayer s' = currentPlayer initialGameState /\
  gameActive s' = gameActive initialGameState /\
  winner s' = winner initialGameState /\
  (restartGame s).2 = s' /\ (showModeSelection s).2 = s' /\
  (forall m, (selectMode m s).2 = (set_mode (Some m) s').2).
Proof. unfold_state. simpl. repeat split. Qed.

(** ** The computer player *)

Lemma elem_of_emptyIndices_of (b : Board) (i : Z) :
  i ∈ emptyIndices_of b <-> get b i = Some Empty.
Proof.
  unfold emptyIndices_of. rewrite list_elem_of_filter, elem_of_lookup_imap. split.
  - intros [Hne (k & c & -> & Hk)]. destruct (decide (c = Empty)) as [->|]; [|done].
    unfold get. destruct (Z.ltb_spec (Z.of_nat k) 0); [lia|]. by rewrite Nat2Z.id.
  - intros Hi. pose proof (get_Some_in_range _ _ _ Hi) as Hr.
    split; [lia|]. exists (Z.to_nat i), Empty.
    unfold get in Hi. destruct (Z.ltb_spec i 0); [lia|].
    split; [|done]. rewrite decide_True by done. lia.
Qed.

Lemma emptyIndices_sorted_from (b : Board) (n : nat) :
  let l := filter (fun idx => idx <> -1)
             (imap (fun idx val =>
                      if decide (val = Empty) then Z.of_nat (n + idx) else -1) b) in
  StronglySorted Z.lt l /\ Forall (fun i => Z.of_nat n <= i) l.
Proof.
  revert n. induction b as [|c b IH]; intros n; simpl.
  - split; constructor.
  - rewrite (imap_ext _ (fun idx val =>
               if decide (val = Empty) then Z.of_nat (S n + idx) else -1)).
    2:{ intros i x _. simpl. destruct (decide (x = Empty)); [|done]. f_equal. lia. }
    destruct (IH (S n)) as [Hs Hf].
    assert (Hf' : Forall (fun i => Z.of_nat n <= i)
                    (filter (fun idx => idx <> -1)
                       (imap (fun idx val =>
                          if decide (val = Empty) then Z.of_nat (S n + idx) else -1) b))).
    { eapply Forall_impl; [exact Hf|]. simpl. intros; lia. }
    rewrite filter_cons. destruct (decide _) as [Hne|Heq]; [|done].
    destruct (decide (c = Empty)); [|done].
    split.
    + constructor; [done|]. eapply Forall_impl; [exact Hf|]. simpl. intros; lia.
    + constructor; [lia|done].
Qed.

Lemma emptyIndices_of_sorted (b : Board) : StronglySorted Z.lt (emptyIndices_of b).
Proof. apply (emptyIndices_sorted_from b 0). Qed.

Lemma find_sorted_least (P : Z -> bool) (l : list Z) :
  StronglySorted Z.lt l ->
  match find P l with
  | Some i => i ∈ l /\ P i = true /\ forall j, j ∈ l -> P j = true -> i <= j
  | None => forall j, j ∈ l -> P j = false
  end.
Proof.
  induction 1 as [|x l Hs IH Hall]; simpl.
  - intros j Hj. by apply elem_of_nil in Hj.
  - destruct (P x) eqn:Px.
    + split; [left|]. split; [done|]. intros j [->|Hj]%elem_of_cons _; [lia|].
      rewrite Forall_forall in Hall. specialize (Hall j Hj). lia.
    + destruct (find P l) as [i|].
      * destruct IH as (Hi & HP & Hmin). split; [by right|]. split; [done|].
        intros j [->|Hj]%elem_of_cons HPj; [congruence|]. by apply Hmin.
      * intros j [->|Hj]%elem_of_cons; auto.
Qed.

Lemma tryEach_restores (m : Mark) (indices : list Z) (s : GameState) :
  (forall i, i ∈ indices -> get (board s) i = Some Empty) ->
  tryEach m indices s = (find (wins_with m (board s)) indices, s).
Proof.
  induction indices as [|index rest IH]; intros Hempty; [done|].
  assert (Hi : get (board s) index = Some Empty) by (apply Hempty; left).
  assert (Hback : put (put (board s) index (Mk m)) index Empty = board s).
  { rewrite put_put. by apply put_same. }
  assert (Hs : mkGameState (board s) (currentPlayer s) (gameActive s) (winner s)
                 (mode s) (isComputerTurn s) = s) by (by destruct s).
  simpl. unfold wins_with at 1. unfold_state. simpl.
  destruct (checkWin_on (put (board s) index (Mk m))) as [line|] eqn:Ew; simpl.
  - by rewrite Hback, Hs.
  - rewrite Hback, Hs. apply IH. intros i Hin. apply Hempty. by right.
Qed.

Lemma findBestMove_eq (rnd : Q) (s : GameState) :
  findBestMove rnd s = (bestMove_of rnd (board s), s).
Proof.
  unfold findBestMove, bestMove_of.
  assert (Hall : forall m, tryEach m (emptyIndices_of (board s)) s =
            (find (wins_with m (board s)) (emptyIndices_of (board s)), s)).
  { intros m. apply tryEach_restores. intros i. apply elem_of_emptyIndices_of. }
  unfold mbind, State_bind, gets, ret. simpl.
  case_bool_decide; [done|].
  rewrite (Hall O). destruct (find (wins_with O (board s)) _); [done|].
  rewrite (Hall X). destruct (find (wins_with X (board s)) _); [done|].
  destruct (includes _ 4); [done|].
  repeat case_bool_decide; done.
Qed.

Lemma random_ok_range (rnd : Q) : random_ok rnd = true -> (0 <= rnd)%Q /\ (rnd < 1)%Q.
Proof.
  unfold random_ok. rewrite andb_true_iff, negb_true_iff.
  intros [H0 H1]. apply Qle_bool_iff in H0. split; [done|].
  apply Qnot_le_lt. intros H. apply Qle_bool_iff in H. congruence.
Qed.

Lemma random_below_range (rnd : Q) (len : nat) :
  random_ok rnd = true -> (0 < len)%nat ->
  0 <= random_below rnd len < Z.of_nat len.
Proof.
  intros [H0 H1]%random_ok_range Hlen. unfold random_below.
  assert (Hn : (0 < inject_Z (Z.of_nat len))%Q).
  { change 0%Q with (inject_Z 0). rewrite <- Zlt_Qlt. lia. }
  assert (Hup : (rnd * inject_Z (Z.of_nat len) < inject_Z (Z.of_nat len))%Q).
  { rewrite <- (Qmult_1_l (inject_Z (Z.of_nat len))) at 2.
    by apply Qmult_lt_compat_r. }
  split.
  - change 0 with (Qfloor 0). apply Qfloor_resp_le.
    apply Qmult_le_0_compat; [done|]. by apply Qlt_le_weak.
  - rewrite Zlt_Qlt. eapply Qle_lt_trans; [apply Qfloor_le|exact Hup].
Qed.

Lemma random_element_elem_of (rnd : Q) (arr : list Z) (x : Z) :
  random_element rnd arr = Some x -> x ∈ arr.
Proof.
  unfold random_element, get. destruct (_ <? 0); [done|].
  apply list_elem_of_lookup_2.
Qed.

Lemma random_element_is_Some (rnd : Q) (arr : list Z) :
  random_ok rnd = true -> (0 < length arr)%nat ->
  exists x, random_element rnd arr = Some x /\ x ∈ arr.
Proof.
  intros Hrnd Hlen. pose proof (random_below_range rnd _ Hrnd Hlen) as Hr.
  destruct (lookup_lt_is_Some_2 arr (Z.to_nat (random_below rnd (length arr))))
    as [x Hx]; [lia|].
  assert (random_element rnd arr = Some x) as Hre.
  { unfold random_element, get. destruct (Z.ltb_spec (random_below rnd (length arr)) 0); [lia|done]. }
  exists x. split; [done|]. by eapply random_element_elem_of.
Qed.

Lemma wins_at_iff (m : Mark) (b : Board) (i : Z) :
  wins_at m b i <-> i ∈ emptyIndices_of b /\ wins_with m b i = true.
Proof.
  unfold wins_at, wins_with.
  by rewrite elem_of_emptyIndices_of, bool_decide_eq_true.
Qed.

Lemma find_wins_with (m : Mark) (b : Board) :
  match find (wins_with m b) (emptyIndices_of b) with
  | Some i => least_win m b i
  | None => forall j, ~ wins_at m b j
  end.
Proof.
  pose proof (find_sorted_least (wins_with m b) _ (emptyIndices_of_sorted b)) as H.
  destruct (find _ _) as [i|].
  - destruct H as (Hi & Hw & Hmin). split; [by apply wins_at_iff|].
    intros j [Hj Hwj]%wins_at_iff. by apply Hmin.
  - intros j [Hj Hwj]%wins_at_iff. specialize (H j Hj). congruence.
Qed.

Lemma includes_emptyIndices (b : Board) (i : Z) :
  includes (emptyIndices_of b) i = true <-> get b i = Some Empty.
Proof.
  unfold includes. by rewrite bool_decide_eq_true, elem_of_emptyIndices_of.
Qed.

Lemma elem_of_candidates (b : Board) (candidates : list Z) (c : Z) :
  c ∈ filter (fun c => includes (emptyIndices_of b) c = true) candidates <->
  empty_among candidates b c.
Proof.
  unfold empty_among. rewrite list_elem_of_filter, includes_emptyIndices. tauto.
Qed.

Lemma length_pos_elem_of (l : list Z) : (0 < length l)%nat <-> exists x, x ∈ l.
Proof.
  destruct l as [|x l]; simpl.
  - split; [lia|]. intros [x Hx]. by apply elem_of_nil in Hx.
  - split; [|lia]. intros _. exists x. left.
Qed.

(** C4: on a board with an empty cell, [findBestMove] returns the first
    that applies of: the lowest empty cell where an O completes a line for
    [checkWin]; the lowest empty cell where an X does; cell 4 if empty; an
    empty corner among 0, 2, 6, 8 picked by the random number; an empty
    edge among 1, 3, 5, 7 picked the same way; any empty cell picked the
    same way. *)
Theorem findBestMove_priority (rnd : Q) (s : GameState) :
  random_ok rnd = true ->
  (exists i, get (board s) i = Some Empty) ->
  let b := board s in
  let res := (findBestMove rnd s).1 in
  (exists i, res = Some i /\ least_win O b i)
  \/ ((forall i, ~ wins_at O b i) /\
      ((exists i, res = Some i /\ least_win X b i)
       \/ ((forall i, ~ wins_at X b i) /\
           ((get b 4 = Some Empty /\ res = Some 4)
            \/ (get b 4 <> Some Empty /\
                ((exists c, res = Some c /\ empty_among [0; 2; 6; 8] b c)
                 \/ ((forall c, ~ empty_among [0; 2; 6; 8] b c) /\
                     ((exists e, res = Some e /\ empty_among [1; 3; 5; 7] b e)
                      \/ ((forall e, ~ empty_among [1; 3; 5; 7] b e) /\
                          exists i, res = Some i /\ get b i = Some Empty))))))))).
Proof.
  intros Hrnd [i0 Hi0]. cbv zeta. rewrite findBestMove_eq. simpl.
  revert Hi0. generalize (board s). intros b Hi0. unfold bestMove_of.
  assert (Hne : length (emptyIndices_of b) <> 0%nat).
  { apply elem_of_emptyIndices_of in Hi0. destruct (emptyIndices_of b); [|done].
    by apply elem_of_nil in Hi0. }
  rewrite bool_decide_eq_false_2 by done.
  pose proof (find_wins_with O b) as HO.
  destruct (find (wins_with O b) _) as [i|]; [left; eauto|]. right. split; [done|].
  pose proof (find_wins_with X b) as HX.
  destruct (find (wins_with X b) _) as [i|]; [left; eauto|]. right. split; [done|].
  destruct (includes (emptyIndices_of b) 4) eqn:H4.
  { left. by apply includes_emptyIndices in H4. }
  right. split.
  { intros H. apply includes_emptyIndices in H. congruence. }
  case_bool_decide as Hc.
  { left. destruct (random_element_is_Some rnd _ Hrnd Hc) as (c & -> & Hin).
    exists c. split; [done|]. by apply elem_of_candidates. }
  right. split.
  { intros c Hin%elem_of_candidates. apply Hc, length_pos_elem_of. eauto. }
  case_bool_decide as He.
  { left. destruct (random_element_is_Some rnd _ Hrnd He) as (e & -> & Hin).
    exists e. split; [done|]. by apply elem_of_candidates. }
  right. split.
  { intros e Hin%elem_of_candidates. apply He, length_pos_elem_of. eauto. }
  destruct (random_element_is_Some rnd (emptyIndices_of b) Hrnd) as (i & -> & Hin); [lia|].
  exists i. split; [done|]. by apply elem_of_emptyIndices_of.
Qed.

Lemma findBestMove_priority_witness :
  let s := mkGameState
             [Mk X; Mk X; Empty; Empty; Mk O; Empty; Empty; Empty; Empty]
             O true None (Some VsComputer) true in
  (findBestMove (1 # 2) s).1 = Some 2 /\
  ((exists i, (findBestMove (1 # 2) s).1 = Some i /\ least_win O (board s) i)
   \/ (forall i, ~ wins_at O (board s) i)).
Proof.
  intros s. split; [reflexivity|].
  destruct (findBestMove_priority (1 # 2) s eq_refl) as [H|[H _]].
  - exists 2. reflexivity.
  - left. exact H.
  - right. exact H.
Defined.

Lemma bestMove_of_empty (rnd : Q) (b : Board) (i : Z) :
  bestMove_of rnd b = Some i ->
  (i = -1 /\ forall j, get b j <> Some Empty) \/ get b i = Some Empty.
Proof.
  unfold bestMove_of. case_bool_decide as Hlen.
  { intros [= <-]. left. split; [done|]. intros j Hj%elem_of_emptyIndices_of.
    apply nil_length_inv in Hlen. rewrite Hlen in Hj. by apply elem_of_nil in Hj. }
  intros H. right. revert H.
  destruct (find (wins_with O b) _) as [k|] eqn:EO.
  { intros [= <-]. apply find_some in EO as [Hin _].
    by apply elem_of_emptyIndices_of, list_elem_of_In. }
  destruct (find (wins_with X b) _) as [k|] eqn:EX.
  { intros [= <-]. apply find_some in EX as [Hin _].
    by apply elem_of_emptyIndices_of, list_elem_of_In. }
  destruct (includes _ 4) eqn:H4.
  { intros [= <-]. by apply includes_emptyIndices. }
  repeat case_bool_decide; intros Hin%random_element_elem_of.
  - by apply elem_of_candidates in Hin as [_ ?].
  - by apply elem_of_candidates in Hin as [_ ?].
  - by apply elem_of_emptyIndices_of.
Qed.

(** C5: [findBestMove] leaves the state, and so the board, exactly as it
    found it: each of its two loops takes back every mark it placed,
    whether it returns early or runs to the end.  An index it returns
    other than [-1] is that of an empty cell, and [-1] is returned only
    when no cell is empty. *)
Theorem findBestMove_frame (rnd : Q) (s : GameState) :
  (findBestMove rnd s).2 = s /\
  board (findBestMove rnd s).2 = board s /\
  (forall m, (tryEach m (emptyIndices_of (board s)) s).2 = s) /\
  (forall i, (findBestMove rnd s).1 = Some i ->
     (i = -1 /\ forall j, get (board s) j <> Some Empty) \/
     get (board s) i = Some Empty).
Proof.
  rewrite findBestMove_eq. simpl. repeat split.
  - intros m. rewrite tryEach_restores; [done|].
    intros i. apply elem_of_emptyIndices_of.
  - apply bestMove_of_empty.
Qed.

(** C9: on a board without an empty cell [findBestMove] returns [-1], its
    no-move value, and leaves the state as it was. *)
Theorem findBestMove_full_board (rnd : Q) (s : GameState) :
  (forall i, get (board s) i <> Some Empty) ->
  findBestMove rnd s = (Some (-1), s).
Proof.
  intros Hfull. rewrite findBestMove_eq. f_equal. unfold bestMove_of.
  rewrite bool_decide_eq_true_2; [done|].
  destruct (emptyIndices_of (board s)) as [|i l] eqn:E; [done|].
  exfalso. apply (Hfull i), elem_of_emptyIndices_of. rewrite E. left.
Qed.

Lemma findBestMove_full_board_witness :
  let s := mkGameState
             [Mk X; Mk O; Mk X; Mk X; Mk O; Mk O; Mk O; Mk X; Mk X]
             O false None (Some VsComputer) false in
  findBestMove (1 # 3) s = (Some (-1), s).
Proof.
  intros s. apply (findBestMove_full_board (1 # 3) s).
  intros i Hi. pose proof (get_Some_in_range _ _ _ Hi) as Hr. simpl in Hr.
  assert (Hcases : i = 0 \/ i = 1 \/ i = 2 \/ i = 3 \/ i = 4 \/ i = 5 \/
                   i = 6 \/ i = 7 \/ i = 8) by lia.
  destruct Hcases as [->|[->|[->|[->|[->|[->|[->|[->| ->]]]]]]]]; discriminate Hi.
Defined.

(** ** Sessions *)

#[local] Arguments findBestMove : simpl never.

(** The paths through the timer callback of [makeComputerMove]. *)
Lemma computerTurn_cases (rnd : Q) (s : GameState) :
  let p := currentPlayer s in
  let idle := mkGameState (board s) p (gameActive s) (winner s) (mode s) false in
  (gameActive s = false /\ computerTurn rnd s = (Normal, idle))
  \/ (gameActive s = true /\
      ((bestMove_of rnd (board s) = None /\ computerTurn rnd s = (Throws, s))
       \/ (bestMove_of rnd (board s) = Some (-1) /\
           computerTurn rnd s = (Normal, idle))
       \/ (exists i, let b' := put (board s) i (Mk O) in
             bestMove_of rnd (board s) = Some i /\ get (board s) i = Some Empty /\
             ((exists line, checkWin_on b' = Some line /\
                 computerTurn rnd s =
                   (Normal, mkGameState b' p false (Some p) (mode s) false))
              \/ (checkWin_on b' = None /\ checkDraw_on b' = true /\
                  computerTurn rnd s =
                    (Normal, mkGameState b' p false (winner s) (mode s) false))
              \/ (checkWin_on b' = None /\ checkDraw_on b' = false /\
                  computerTurn rnd s =
                    (Normal, mkGameState b' (other p) true (winner s) (mode s)
                               false)))))).
Proof.
  intros p idle. remember (computerTurn rnd s) as res eqn:Hres.
  unfold computerTurn in Hres.
  unfold mbind at 1, State_bind at 1, gets at 1 in Hres.
  destruct (gameActive s) eqn:Hactive; simpl in Hres.
  2:{ left. split; [done|]. unfold_state. simpl in Hres. by rewrite Hactive in Hres. }
  right. split; [done|].
  unfold mbind at 1, State_bind at 1 in Hres. rewrite findBestMove_eq in Hres.
  pose proof (bestMove_of_empty rnd (board s)) as Hempty.
  destruct (bestMove_of rnd (board s)) as [i|]; [|left; done].
  right. destruct (Hempty i eq_refl) as [[-> _]|Hi]; clear Hempty.
  { left. split; [done|]. unfold_state. simpl in Hres. by rewrite Hactive in Hres. }
  right. exists i. simpl. split; [done|]. split; [done|].
  assert (Hne : i <> -1).
  { apply get_Some_in_range in Hi. lia. }
  unfold_state. rewrite bool_decide_eq_true_2 in Hres by done. simpl in Hres.
  destruct (checkWin_on (put (board s) i (Mk O))) as [line|] eqn:Ew; simpl in Hres.
  { left. eauto. }
  right. destruct (checkDraw_on (put (board s) i (Mk O))) eqn:Ed; simpl in Hres.
  { left. done. }
  right. rewrite Hactive in Hres. subst p res. by destruct (currentPlayer s).
Qed.

Lemma session_ok_initial : session_ok initialGameState.
Proof. split; [done|]. split; [done|]. intros [=]. Qed.

Lemma session_ok_reset (s : GameState) : session_ok (resetGameState s).2.
Proof. split; [done|]. split; [done|]. intros [=]. Qed.

Lemma ended_intro_win (b : Board) p q a md ict line :
  checkWin_on b = Some line -> ended (mkGameState b p a (Some q) md ict).
Proof. intros Hw. right. exists q. simpl. split; [done|]. by rewrite Hw. Qed.

Lemma session_ok_makeMove (s : GameState) (index : Z) :
  session_ok s -> session_ok (makeMove index s).2.
Proof.
  intros (Hlen & Hw & He).
  destruct (makeMove_cases s index) as [[-> _]|(Hactive & _ & H)]; [done|].
  specialize (Hw Hactive).
  destruct H as [(line & Hl & ->)|[(Hl & Hd & ->)|(Hl & Hd & ->)]];
    unfold session_ok; simpl;
    (split; [by rewrite put_length|]); (split; [done|]); intros Hf; try done.
  - by eapply ended_intro_win.
  - left. simpl. by rewrite Hw.
Qed.

Lemma session_ok_computerTurn (rnd : Q) (s : GameState) :
  session_ok s -> session_ok (computerTurn rnd s).2.
Proof.
  intros (Hlen & Hw & He).
  assert (Hidle : session_ok (mkGameState (board s) (currentPlayer s)
                                (gameActive s) (winner s) (mode s) false)).
  { split; [done|]. split; [done|]. simpl. intros Hf. by destruct (He Hf); [left|right]. }
  destruct (computerTurn_cases rnd s) as [[Hactive ->]|[Hactive H]]; [done|].
  specialize (Hw Hactive).
  destruct H as [[_ ->]|[[_ ->]|(i & _ & _ & H)]]; [done|done|].
  destruct H as [(line & Hl & ->)|[(Hl & Hd & ->)|(Hl & Hd & ->)]];
    unfold session_ok; simpl;
    (split; [by rewrite put_length|]); (split; [done|]); intros Hf; try done.
  - by eapply ended_intro_win.
  - left. simpl. by rewrite Hw.
Qed.

Lemma session_ok_step (s : GameState) (e : Event) :
  session_ok s -> session_ok (step s e).
Proof.
  intros Hs. destruct e as [m| | |index|rnd]; simpl.
  - apply (session_ok_reset (set_mode (Some m) s).2).
  - apply session_ok_reset.
  - apply session_ok_reset.
  - by apply session_ok_makeMove.
  - by apply session_ok_computerTurn.
Qed.

Lemma session_ok_run (events : list Event) (s : GameState) :
  session_ok s -> session_ok (run events s).
Proof.
  revert s. induction events as [|e events IH]; intros s Hs; [done|].
  simpl. apply IH. by apply session_ok_step.
Qed.

Lemma reachable_session_ok (s : GameState) : reachable s -> session_ok s.
Proof. intros (events & _ & <-). apply session_ok_run, session_ok_initial. Qed.

Lemma step_inactive (s : GameState) (e : Event) :
  gameActive s = false -> is_reset e = false ->
  gameActive (step s e) = false /\ board (step s e) = board s /\
  winner (step s e) = winner s /\ currentPlayer (step s e) = currentPlayer s.
Proof.
  intros Hactive He. destruct e as [m| | |index|rnd]; try done; simpl.
  - destruct (makeMove_cases s index) as [[-> _]|(? & _)]; [done|congruence].
  - destruct (computerTurn_cases rnd s) as [[_ ->]|[? _]]; [done|congruence].
Qed.

Lemma run_inactive (events : list Event) (s : GameState) :
  gameActive s = false -> no_reset events = true ->
  gameActive (run events s) = false /\ board (run events s) = board s /\
  winner (run events s) = winner s /\
  currentPlayer (run events s) = currentPlayer s.
Proof.
  revert s. induction events as [|e events IH]; intros s Hactive Hno; [done|].
  simpl in Hno. apply andb_true_iff in Hno as [He Hno].
  apply negb_true_iff in He.
  destruct (step_inactive s e Hactive He) as (Ha & Hb & Hw & Hp).
  simpl. destruct (IH (step s e) Ha Hno) as (? & ? & ? & ?).
  repeat split; congruence.
Qed.

(** C6: in every state a session can reach, a winner is recorded only when
    the game is no longer active, and whenever an event leaves the game
    inactive the board holds a line or is full, with [winner] set on a line
    and unset on a full board.  Once the game is inactive it stays so,
    with board, winner and player untouched, through any calls of
    [makeMove] and timer callbacks until a reset; a [makeMove] call then
    takes the early [return].  The game turns inactive only on a move that
    ends in a win or a draw, and only a reset makes it active again. *)
Theorem session_invariant :
  (forall s, reachable s -> winner s <> None -> gameActive s = false) /\
  (forall s events, gameActive s = false -> no_reset events = true ->
     gameActive (run events s) = false /\ board (run events s) = board s /\
     winner (run events s) = winner s) /\
  (forall s index, gameActive s = false -> makeMove index s = (InvalidMove, s)) /\
  (forall s index, gameActive s = true ->
     gameActive (makeMove index s).2 = false ->
     (exists line, (makeMove index s).1 = Win line) \/
     (makeMove index s).1 = Draw) /\
  (forall s e, reachable s -> gameActive (step s e) = false ->
     ended (step s e)) /\
  (forall s e, gameActive s = false -> gameActive (step s e) = true ->
     is_reset e = true) /\
  (forall s e, is_reset e = true ->
     gameActive (step s e) = true /\ winner (step s e) = None /\
     board (step s e) = replicate 9 Empty /\ currentPlayer (step s e) = X).
Proof.
  split; [|split; [|split; [|split; [|split; [|split]]]]].
  - intros s (_ & Hw & _)%reachable_session_ok Hne.
    destruct (gameActive s); [|done]. by specialize (Hw eq_refl).
  - intros s events Ha Hno. destruct (run_inactive events s Ha Hno) as (? & ? & ? & _).
    done.
  - intros s index Ha.
    destruct (makeMove_cases s index) as [[-> _]|(? & _)]; [done|congruence].
  - intros s index Ha.
    destruct (makeMove_cases s index) as [[-> _]|(_ & _ & H)]; [simpl; congruence|].
    destruct H as [(line & _ & ->)|[(_ & _ & ->)|(_ & _ & ->)]]; simpl; eauto.
    done.
  - intros s e Hs%reachable_session_ok Ha.
    by destruct (session_ok_step s e Hs) as (_ & _ & He); auto.
  - intros s e Ha Hstep. destruct (is_reset e) eqn:He; [done|].
    destruct (step_inactive s e Ha He) as [? _]. congruence.
  - intros s e He. by destruct e.
Qed.

(** C10: the draw handler clears [gameActive] and assigns nothing else.  A
    move of a session that ends in a draw leaves a full nine-cell board
    without a line, the game inactive and [winner] unset, while a move that
    ends in a win sets [winner] to the mover.  So in every inactive state a
    session can reach, [winner] is unset exactly on a full board without a
    line and set exactly on a board with a line. *)
Theorem draw_leaves_winner_unset :
  (forall s, (handleDraw s).2 =
     mkGameState (board s) (currentPlayer s) false (winner s) (mode s)
       (isComputerTurn s)) /\
  (forall s index, reachable s -> (makeMove index s).1 = Draw ->
     let s' := (makeMove index s).2 in
     gameActive s' = false /\ winner s' = None /\
     length (board s') = 9%nat /\
     checkWin_on (board s') = None /\
     (forall i c, get (board s') i = Some c -> c <> Empty)) /\
  (forall s index line, (makeMove index s).1 = Win line ->
     gameActive (makeMove index s).2 = false /\
     winner (makeMove index s).2 = Some (currentPlayer s)) /\
  (forall s, reachable s -> gameActive s = false ->
     (winner s = None <->
        checkWin_on (board s) = None /\ checkDraw_on (board s) = true) /\
     (winner s <> None <-> is_Some (checkWin_on (board s)))).
Proof.
  split; [done|]. split; [|split].
  - intros s index (Hlen & Hw & _)%reachable_session_ok Hr.
    destruct (makeMove_cases s index) as [[E _]|(Ha & _ & H)];
      [rewrite E in Hr; done|].
    destruct H as [(line & _ & E)|[(Hl & Hd & E)|(_ & _ & E)]];
      rewrite E in *; try done. simpl.
    split; [done|]. split; [auto|]. split; [by rewrite put_length|].
    split; [done|]. by apply checkDraw_on_iff.
  - intros s index line Hr.
    destruct (makeMove_cases s index) as [[E _]|(Ha & _ & H)];
      [rewrite E in Hr; done|].
    destruct H as [(line' & _ & E)|[(Hl & Hd & E)|(_ & _ & E)]];
      rewrite E in *; done.
  - intros s (_ & _ & He)%reachable_session_ok Ha.
    destruct (He Ha) as [(Hw & Hl & Hd)|(p & Hw & Hl)]; rewrite Hw.
    + split; [done|]. rewrite Hl. split; [done|]. by intros [? ?].
    + split; [|done]. split; [done|]. intros [Hn _]. rewrite Hn in Hl.
      by destruct Hl.
Qed.

(** ** Turn order *)

Lemma makeMove_player (s : GameState) (index : Z) :
  currentPlayer (makeMove index s).2 =
  match (makeMove index s).1 with
  | Continue => other (currentPlayer s)
  | _ => currentPlayer s
  end.
Proof.
  destruct (makeMove_cases s index) as [[-> _]|(_ & _ & H)]; [done|].
  by destruct H as [(line & _ & ->)|[(_ & _ & ->)|(_ & _ & ->)]].
Qed.

Lemma playMoves_cons (index : Z) (rest : list Z) (s : GameState) :
  playMoves (index :: rest) s =
  ((makeMove index s).1 :: (playMoves rest (makeMove index s).2).1,
   (playMoves rest (makeMove index s).2).2).
Proof.
  simpl. unfold mbind, State_bind, ret.
  destruct (makeMove index s) as [r s1]. simpl.
  by destruct (playMoves rest s1) as [rs s2].
Qed.

Lemma playMoves_app (l1 l2 : list Z) (s : GameState) :
  playMoves (l1 ++ l2) s =
  ((playMoves l1 s).1 ++ (playMoves l2 (playMoves l1 s).2).1,
   (playMoves l2 (playMoves l1 s).2).2).
Proof.
  revert s. induction l1 as [|index l1 IH]; intros s.
  - simpl. unfold ret. simpl. by destruct (playMoves l2 s).
  - rewrite <- app_comm_cons, !playMoves_cons, IH. done.
Qed.

Lemma playMoves_length (l : list Z) (s : GameState) :
  length (playMoves l s).1 = length l.
Proof.
  revert s. induction l as [|index l IH]; intros s; [done|].
  rewrite playMoves_cons. simpl. by rewrite IH.
Qed.

Lemma playMoves_player (l : list Z) (s : GameState) :
  currentPlayer (playMoves l s).2 =
  Nat.iter (count_continue (playMoves l s).1) other (currentPlayer s).
Proof.
  revert s. induction l as [|index l IH]; intros s; [done|].
  rewrite playMoves_cons. simpl. rewrite IH, makeMove_player.
  destruct (makeMove index s).1; try done.
  simpl. symmetry.
  apply (Nat.iter_succ_r (count_continue (playMoves l (makeMove index s).2).1)
           other (currentPlayer s)).
Qed.

Lemma count_continue_all (rs : list MoveResult) :
  Forall (fun r => r = Continue) rs -> count_continue rs = length rs.
Proof. induction 1 as [|r rs -> _ IH]; simpl; [done|]. by rewrite IH. Qed.

Lemma iter_other (k : nat) : Nat.iter k other X = nth_player k.
Proof.
  unfold nth_player. induction k as [|k IH]; [done|].
  rewrite Nat.even_succ, <- Nat.negb_even. simpl. rewrite IH.
  by destruct (Nat.even k).
Qed.

(** C7: a call of [makeMove] hands the turn to the other player exactly
    when it ends in [Continue], and leaves the player alone when it is
    rejected or ends the game.  So after any run of calls the player has
    been switched once per [Continue]; and in a run from a state with X to
    move in which every call ends in [Continue], the [k]-th call (from 0)
    finds X to move for even [k] and O for odd [k], and writes that mark
    into the empty cell it was given. *)
Theorem currentPlayer_alternates :
  (forall s index,
     currentPlayer (makeMove index s).2 =
     match (makeMove index s).1 with
     | Continue => other (currentPlayer s)
     | _ => currentPlayer s
     end) /\
  (forall indices s,
     currentPlayer (playMoves indices s).2 =
     Nat.iter (count_continue (playMoves indices s).1) other (currentPlayer s)) /\
  (forall indices s0 k,
     currentPlayer s0 = X ->
     Forall (fun r => r = Continue) (playMoves indices s0).1 ->
     (k <= length indices)%nat ->
     currentPlayer (playMoves (take k indices) s0).2 = nth_player k) /\
  (forall indices s0 k index,
     currentPlayer s0 = X ->
     Forall (fun r => r = Continue) (playMoves indices s0).1 ->
     indices !! k = Some index ->
     get (board (playMoves (take k indices) s0).2) index = Some Empty /\
     get (board (playMoves (take (S k) indices) s0).2) index =
       Some (Mk (nth_player k))).
Proof.
  assert (Hprefix : forall indices s0 k,
     currentPlayer s0 = X ->
     Forall (fun r => r = Continue) (playMoves indices s0).1 ->
     (k <= length indices)%nat ->
     currentPlayer (playMoves (take k indices) s0).2 = nth_player k).
  { intros indices s0 k HX Hall Hk.
    rewrite <- (take_drop k indices), playMoves_app in Hall. simpl in Hall.
    apply Forall_app in Hall as [Hall _].
    rewrite playMoves_player, HX, (count_continue_all _ Hall), playMoves_length.
    rewrite length_take, Nat.min_l by done. apply iter_other. }
  split; [apply makeMove_player|]. split; [apply playMoves_player|].
  split; [exact Hprefix|].
  intros indices s0 k index HX Hall Hk.
  assert (Hlt : (k < length indices)%nat) by (by eapply lookup_lt_Some).
  pose proof (Hprefix indices s0 k HX Hall ltac:(lia)) as Hp.
  rewrite (take_S_r _ _ _ Hk), playMoves_app. cbn [fst snd].
  rewrite <- (take_drop (S k) indices), (take_S_r _ _ _ Hk) in Hall.
  rewrite !playMoves_app in Hall. cbn [fst snd] in Hall.
  apply Forall_app in Hall as [Hall _]. apply Forall_app in Hall as [_ Hall].
  set (sk := (playMoves (take k indices) s0).2) in *.
  rewrite playMoves_cons in Hall |- *. cbn [fst snd] in Hall |- *.
  apply Forall_cons in Hall as [Hr _].
  destruct (makeMove_cases sk index) as [[E _]|(_ & Hempty & H)];
    [rewrite E in Hr; done|].
  split; [done|].
  destruct H as [(line & _ & E)|[(_ & _ & E)|(_ & _ & E)]];
    rewrite E in Hr |- *; try done.
  simpl. rewrite <- Hp. by eapply get_put_eq.
Qed.

Lemma currentPlayer_alternates_witness :
  currentPlayer (playMoves (take 3 [0; 4; 8; 2]) initialGameState).2 = O /\
  get (board (playMoves (take 3 [0; 4; 8; 2]) initialGameState).2) 8 = Some (Mk X).
Proof.
  destruct currentPlayer_alternates as (_ & _ & Hturn & Hmark).
  split.
  - apply (Hturn [0; 4; 8; 2] initialGameState 3%nat); [reflexivity| |simpl; lia].
    repeat constructor.
  - apply (Hmark [0; 4; 8; 2] initialGameState 2%nat 8); [reflexivity| |reflexivity].
    repeat constructor.
Defined.

(** Every element of a non-empty array is the pick of some random number. *)
Lemma random_element_onto (arr : list Z) (x : Z) :
  x ∈ arr -> exists rnd, random_ok rnd = true /\ random_element rnd arr = Some x.
Proof.
  intros [k Hk]%list_elem_of_lookup_1.
  pose proof (lookup_lt_Some _ _ _ Hk) as Hlt.
  assert (Hpos : Z.pos (Pos.of_nat (length arr)) = Z.of_nat (length arr)).
  { destruct (length arr) as [|n] eqn:E; [lia|]. by rewrite <- Pos.of_nat_succ, Zpos_P_of_succ_nat, Nat2Z.inj_succ. }
  exists (Z.of_nat k # Pos.of_nat (length arr))%Q. split.
  - unfold random_ok, Qle_bool. simpl. rewrite Hpos.
    apply andb_true_iff. split; [apply Z.leb_le; lia|].
    apply negb_true_iff, Z.leb_gt. lia.
  - unfold random_element, random_below, Qfloor, Qmult, inject_Z. simpl.
    rewrite Pos.mul_1_r, Hpos, Z.div_mul by lia.
    unfold get. destruct (Z.ltb_spec (Z.of_nat k) 0); [lia|]. by rewrite Nat2Z.id.
Qed.

(** The corner step can return each empty corner: which one depends on
    the random number alone. *)
Lemma findBestMove_any_corner (s : GameState) (c : Z) :
  (forall i, ~ wins_at O (board s) i) ->
  (forall i, ~ wins_at X (board s) i) ->
  get (board s) 4 <> Some Empty ->
  empty_among [0; 2; 6; 8] (board s) c ->
  exists rnd, random_ok rnd = true /\ (findBestMove rnd s).1 = Some c.
Proof.
  intros HO HX H4 Hc. apply elem_of_candidates in Hc.
  destruct (random_element_onto _ _ Hc) as (rnd & Hrnd & Hpick).
  exists rnd. split; [done|]. rewrite findBestMove_eq. simpl. unfold bestMove_of.
  assert (Hne : length (emptyIndices_of (board s)) <> 0%nat).
  { apply elem_of_candidates in Hc as [_ Hc%elem_of_emptyIndices_of].
    destruct (emptyIndices_of (board s)); [|done]. by apply elem_of_nil in Hc. }
  rewrite bool_decide_eq_false_2 by done.
  pose proof (find_wins_with O (board s)) as HfO.
  destruct (find (wins_with O (board s)) _) as [i|]; [by destruct (HO i), HfO|].
  pose proof (find_wins_with X (board s)) as HfX.
  destruct (find (wins_with X (board s)) _) as [i|]; [by destruct (HX i), HfX|].
  destruct (includes _ 4) eqn:E4; [by apply includes_emptyIndices in E4|].
  rewrite bool_decide_eq_true_2; [done|]. apply length_pos_elem_of. eauto.
Qed.

(** ** Worked games and the scenarios of the specification *)

Lemma session_invariant_witness :
  let s := run top_row_game initialGameState in
  reachable s /\ winner s = Some X /\ gameActive s = false /\
  board (run [EvMove 5; EvComputerTimer (1 # 2)] s) = board s.
Proof.
  intros s. destruct session_invariant as (Hw & Hfrozen & _).
  assert (Hs : reachable s) by (exists top_row_game; split; reflexivity).
  assert (Ha : gameActive s = false) by (apply (Hw s Hs); vm_compute; discriminate).
  split; [exact Hs|]. split; [reflexivity|]. split; [exact Ha|].
  apply (Hfrozen s [EvMove 5; EvComputerTimer (1 # 2)] Ha eq_refl).
Defined.

Lemma draw_leaves_winner_unset_witness :
  let s := run drawn_game_prefix initialGameState in
  reachable s /\ (makeMove 8 s).1 = Draw /\ winner (makeMove 8 s).2 = None.
Proof.
  intros s. destruct draw_leaves_winner_unset as (_ & Hdraw & _).
  assert (Hs : reachable s) by (exists drawn_game_prefix; split; reflexivity).
  split; [exact Hs|]. split; [reflexivity|].
  apply (Hdraw s 8 Hs eq_refl).
Defined.

(** X at 0 and 1 threatens cell 2; O has no win of its own and blocks. *)
Example scenario_block :
  (findBestMove (1 # 2)
     (mkGameState [Mk X; Mk X; Empty; Empty; Empty; Empty; Empty; Empty; Empty]
        O true None (Some VsComputer) true)).1 = Some 2.
Proof. reflexivity. Qed.

(** O at 0 and 4 wins at once on the diagonal by taking cell 8. *)
Example scenario_win_now :
  (findBestMove (1 # 2)
     (mkGameState [Mk O; Empty; Empty; Empty; Mk O; Empty; Empty; Empty; Empty]
        O true None (Some VsComputer) true)).1 = Some 8.
Proof. reflexivity. Qed.

(** The last move fills the board and completes the diagonal 0-4-8: the
    result is the win, though [checkDraw] holds of the same board. *)
Example scenario_win_on_full_board :
  let s := mkGameState [Mk X; Mk O; Mk X; Mk O; Mk X; Mk O; Mk O; Mk X; Empty]
             X true None (Some TwoPlayer) false in
  (makeMove 8 s).1 = Win (0, 4, 8) /\ checkDraw_on (board (makeMove 8 s).2) = true.
Proof. split; reflexivity. Qed.

(** A full board without three in a row. *)
Example scenario_full_board_no_line :
  let b := [Mk X; Mk O; Mk X; Mk X; Mk O; Mk O; Mk O; Mk X; Mk X] in
  checkDraw_on b = true /\ checkWin_on b = None.
Proof. split; reflexivity. Qed.

(** Two lines at once: the row comes before the column. *)
Example scenario_first_line_reported :
  checkWin_on [Mk X; Mk X; Mk X; Mk X; Mk O; Mk O; Mk X; Mk O; Empty]
  = Some (0, 1, 2).
Proof. reflexivity. Qed.

(** * Further properties of the code *)

(** ** Arrow-key navigation *)

Ltac on_grid i H :=
  let Hc := fresh "Hc" in
  assert (Hc : i = 0 \/ i = 1 \/ i = 2 \/ i = 3 \/ i = 4 \/ i = 5 \/
               i = 6 \/ i = 7 \/ i = 8) by lia;
  clear H;
  destruct Hc as [->|[->|[->|[->|[->|[->|[->|[->| ->]]]]]]]].

(** X1: [handleArrowNavigation] never moves the focus off the grid,
    whatever index it is given, and other keys move nothing.  From a cell
    of the grid an arrow key always moves the focus, to another cell of the
    same column (up, down) or the same row (left, right). *)
Theorem arrow_navigation_on_grid :
  (forall key i t, handleArrowNavigation key i = Some t -> 0 <= t <= 8) /\
  (forall key i, is_arrow key = false -> handleArrowNavigation key i = None) /\
  (forall key i, i < 0 ->
     handleArrowNavigation key i = handleArrowNavigation key 0) /\
  (forall key i, is_arrow key = true -> 0 <= i <= 8 ->
     exists t, handleArrowNavigation key i = Some t /\ 0 <= t <= 8 /\ t <> i /\
       match key with
       | ArrowUp | ArrowDown => t mod 3 = i mod 3
       | _ => t / 3 = i / 3
       end).
Proof.
  split; [|split; [|split]].
  - intros key i t. unfold handleArrowNavigation.
    destruct (_ && _) eqn:E; [|done]. intros [= <-].
    apply andb_true_iff in E as [?%Z.leb_le ?%Z.leb_le]. lia.
  - intros key i Hkey. by destruct key.
  - intros key i Hi. unfold handleArrowNavigation.
    destruct (Z.leb_spec 0 i); [lia|done].
  - intros key i Hkey Hi. destruct key; try done; on_grid i Hi;
      (eexists; split; [vm_compute; reflexivity|]; split; [lia|]; split; [lia|reflexivity]).
Qed.

Lemma arrow_navigation_on_grid_witness :
  exists t, handleArrowNavigation ArrowUp 1 = Some t /\ 0 <= t <= 8 /\ t <> 1 /\
            t mod 3 = 1 mod 3.
Proof.
  destruct arrow_navigation_on_grid as (_ & _ & _ & H).
  assert (Hi : 0 <= 1 <= 8) by lia.
  exact (H ArrowUp 1 eq_refl Hi).
Defined.

(** X2: on the grid the arrow keys undo each other, up against down and
    left against right, and three presses of one arrow key lead back to the
    cell they started from. *)
Theorem arrow_navigation_round_trip (i : Z) :
  0 <= i <= 8 ->
  then_key ArrowDown (handleArrowNavigation ArrowUp i) = Some i /\
  then_key ArrowUp (handleArrowNavigation ArrowDown i) = Some i /\
  then_key ArrowRight (handleArrowNavigation ArrowLeft i) = Some i /\
  then_key ArrowLeft (handleArrowNavigation ArrowRight i) = Some i /\
  (forall key, is_arrow key = true ->
     then_key key (then_key key (handleArrowNavigation key i)) = Some i).
Proof.
  intros Hi. on_grid i Hi; repeat split; try reflexivity;
    intros key Hkey; destruct key; try done.
Qed.

Lemma arrow_navigation_round_trip_witness :
  then_key ArrowDown (handleArrowNavigation ArrowUp 2) = Some 2.
Proof.
  assert (Hi : 0 <= 2 <= 8) by lia.
  exact (proj1 (arrow_navigation_round_trip 2 Hi)).
Defined.

(** ** Clicks and the Enter key *)

Lemma makeMove_twice (s : GameState) (index : Z) :
  makeMove index (makeMove index s).2 = (InvalidMove, (makeMove index s).2).
Proof.
  destruct (makeMove_cases s index) as [[E _]|(Ha & He & H)].
  { by rewrite !E. }
  assert (Hocc : get (put (board s) index (Mk (currentPlayer s))) index
                 <> Some Empty).
  { by rewrite (get_put_eq _ _ _ _ He). }
  destruct H as [(line & _ & E)|[(_ & _ & E)|(_ & _ & E)]]; rewrite E; simpl;
    match goal with
    | |- makeMove index ?s' = _ =>
        destruct (makeMove_cases s' index) as [[E' _]|(Ha' & He' & _)];
          [exact E'|simpl in *; congruence]
    end.
Qed.

(** X3: a second [makeMove] on the same index is always rejected and
    changes nothing.  So Enter on a focused cell, which reaches [makeMove]
    through the listener of the cell and again through the listener of the
    document, leaves [gameState] exactly as one click on that cell does. *)
Theorem enter_on_cell_as_click (s : GameState) (index : Z) :
  makeMove index (makeMove index s).2 = (InvalidMove, (makeMove index s).2) /\
  (forall hidden, (enterOnCell hidden index s).2 = (handleCellClick index s).2).
Proof.
  split; [apply makeMove_twice|].
  intros hidden. unfold enterOnCell, handleCellKeydown, handleGlobalKeydown,
    handleCellClick.
  unfold mbind, State_bind, gets, ret.
  destruct (isComputerTurn s) eqn:Hbusy; simpl.
  { destruct hidden; [done|]. by rewrite Hbusy. }
  destruct (makeMove index s) as [r s1] eqn:E1. simpl.
  destruct hidden; [done|]. simpl.
  destruct (isComputerTurn s1); [done|].
  pose proof (makeMove_twice s index) as H2. rewrite E1 in H2. simpl in H2.
  by rewrite H2.
Qed.

(** ** The board between resets *)







Lemma count_cell_insert (c v c0 : Cell) (b : Board) (k : nat) :
  b !! k = Some c0 ->
  (count_cell c (<[k := v]> b) + (if decide (c0 = c) then 1 else 0) =
   count_cell c b + (if decide (v = c) then 1 else 0))%nat.
Proof.
  unfold count_cell. revert k. induction b as [|x b IH]; intros k Hk; [done|].
  destruct k as [|k]; simpl in *.
  - injection Hk as ->. rewrite !filter_cons.
    destruct (decide (v = c)), (decide (c0 = c)); simpl; lia.
  - specialize (IH k Hk). rewrite !filter_cons.
    destruct (decide (x = c)); simpl; lia.
Qed.

Lemma count_cell_put (c v c0 : Cell) (b : Board) (i : Z) :
  get b i = Some c0 ->
  (count_cell c (put b i v) + (if decide (c0 = c) then 1 else 0) =
   count_cell c b + (if decide (v = c) then 1 else 0))%nat.
Proof.
  unfold get, put. destruct (i <? 0); [done|]. apply count_cell_insert.
Qed.

Lemma length_emptyIndices_from (b : Board) (n : nat) :
  length (filter (fun idx => idx <> -1)
            (imap (fun idx val =>
                     if decide (val = Empty) then Z.of_nat (n + idx) else -1) b))
  = count_cell Empty b.
Proof.
  unfold count_cell. revert n. induction b as [|c b IH]; intros n; [done|].
  simpl.
  rewrite (imap_ext _ (fun idx val =>
             if decide (val = Empty) then Z.of_nat (S n + idx) else -1)).
  2:{ intros i x _. simpl. destruct (decide (x = Empty)); [|done]. f_equal. lia. }
  rewrite !filter_cons. destruct (decide (c = Empty)) as [->|Hc].
  - rewrite decide_True by lia. cbn [length]. by rewrite IH.
  - rewrite decide_False by (intros H; by apply H). apply IH.
Qed.

Lemma length_emptyIndices_of (b : Board) :
  length (emptyIndices_of b) = count_cell Empty b.
Proof. apply (length_emptyIndices_from b 0). Qed.

Lemma count_cell_le_length (c : Cell) (b : Board) :
  (count_cell c b <= length b)%nat.
Proof. apply length_filter. Qed.

Lemma makeMove_empty_count (s : GameState) (index : Z) :
  (count_accepted [(makeMove index s).1] +
   count_cell Empty (board (makeMove index s).2) =
   count_cell Empty (board s))%nat.
Proof.
  destruct (makeMove_cases s index) as [[-> _]|(_ & He & H)]; [done|].
  pose proof (count_cell_put Empty (Mk (currentPlayer s)) _ _ _ He) as Hc.
  rewrite decide_True, decide_False in Hc by done.
  destruct H as [(line & _ & ->)|[(_ & _ & ->)|(_ & _ & ->)]]; simpl; lia.
Qed.

(** X5: every accepted [makeMove] fills exactly one empty cell and a
    rejected one fills none, so the accepted calls of a run and the empty
    cells left add up to the empty cells at the start.  The number of empty
    cells is the length of the array [findBestMove] collects.  A game from
    a reset accepts nine moves at most. *)
Theorem accepted_moves_fill_cells (indices : list Z) (s : GameState) :
  (count_accepted (playMoves indices s).1 +
   count_cell Empty (board (playMoves indices s).2) =
   count_cell Empty (board s))%nat /\
  length (emptyIndices_of (board s)) = count_cell Empty (board s) /\
  (count_accepted (playMoves indices (resetGameState s).2).1 <= 9)%nat.
Proof.
  assert (Hsum : forall l s0,
    (count_accepted (playMoves l s0).1 +
     count_cell Empty (board (playMoves l s0).2) =
     count_cell Empty (board s0))%nat).
  { induction l as [|index l IH]; intros s0; [done|].
    rewrite playMoves_cons. cbn [fst snd].
    pose proof (makeMove_empty_count s0 index) as H1.
    specialize (IH (makeMove index s0).2).
    destruct (makeMove index s0).1; simpl in *; lia. }
  split; [apply Hsum|]. split; [apply length_emptyIndices_of|].
  specialize (Hsum indices (resetGameState s).2).
  change (count_cell Empty (board (resetGameState s).2)) with 9%nat in Hsum. lia.
Qed.

(** ** Games in progress *)

Lemma checkDraw_on_false (b : Board) :
  checkDraw_on b = false <-> exists i, get b i = Some Empty.
Proof.
  split.
  - intros Hd. destruct (emptyIndices_of b) as [|i l] eqn:E.
    + assert (checkDraw_on b = true); [|congruence].
      apply checkDraw_on_iff. intros i c Hi ->.
      apply elem_of_emptyIndices_of in Hi. rewrite E in Hi.
      by apply elem_of_nil in Hi.
    + exists i. apply elem_of_emptyIndices_of. rewrite E. left.
  - intros [i Hi]. destruct (checkDraw_on b) eqn:Hd; [|done].
    rewrite checkDraw_on_iff in Hd. by destruct (Hd i Empty Hi).
Qed.

Lemma in_progress_ok_makeMove (s : GameState) (index : Z) :
  in_progress_ok s -> in_progress_ok (makeMove index s).2.
Proof.
  intros Hs. destruct (makeMove_cases s index) as [[-> _]|(_ & _ & H)]; [done|].
  destruct H as [(line & _ & ->)|[(_ & _ & ->)|(Hl & Hd & ->)]]; by intros ?.
Qed.

Lemma in_progress_ok_computerTurn (rnd : Q) (s : GameState) :
  in_progress_ok s -> in_progress_ok (computerTurn rnd s).2.
Proof.
  intros Hs. destruct (computerTurn_cases rnd s) as [[Ha ->]|[Ha H]].
  { intros Ha'. simpl in Ha'. congruence. }
  destruct H as [[_ ->]|[[_ ->]|(i & _ & _ & H)]]; [done| |].
  { intros _. by apply Hs. }
  destruct H as [(line & _ & ->)|[(_ & _ & ->)|(Hl & Hd & ->)]]; by intros ?.
Qed.

Lemma in_progress_ok_step (s : GameState) (e : Event) :
  in_progress_ok s -> in_progress_ok (step s e).
Proof.
  intros Hs. destruct e as [m| | |index|rnd]; simpl; try (by intros _).
  - by apply in_progress_ok_makeMove.
  - by apply in_progress_ok_computerTurn.
Qed.

Lemma in_progress_ok_run (events : list Event) (s : GameState) :
  in_progress_ok s -> in_progress_ok (run events s).
Proof.
  revert s. induction events as [|e events IH]; intros s Hs; [done|].
  simpl. apply IH. by apply in_progress_ok_step.
Qed.

Lemma reachable_in_progress_ok (s : GameState) :
  reachable s -> in_progress_ok s.
Proof. intros (events & _ & <-). by apply in_progress_ok_run. Qed.

(** X6: in every state a session can reach, a game that is still active
    has no complete line and at least one empty cell; so a move is always
    possible, [checkDraw] is false and [findBestMove] has candidates. *)
Theorem active_game_is_open (s : GameState) :
  reachable s -> gameActive s = true ->
  checkWin_on (board s) = None /\
  checkDraw_on (board s) = false /\
  (exists i, 0 <= i <= 8 /\ get (board s) i = Some Empty) /\
  emptyIndices_of (board s) <> [].
Proof.
  intros Hr Ha.
  destruct (reachable_in_progress_ok s Hr Ha) as [Hw Hd].
  split; [done|]. split; [done|].
  apply checkDraw_on_false in Hd as [i Hi].
  destruct (reachable_session_ok s Hr) as (Hlen & _).
  split.
  - exists i. split; [|done]. apply get_Some_in_range in Hi. lia.
  - apply elem_of_emptyIndices_of in Hi. intros E. rewrite E in Hi.
    by apply elem_of_nil in Hi.
Qed.

Lemma active_game_is_open_witness :
  let s := run drawn_game_prefix initialGameState in
  checkWin_on (board s) = None /\ checkDraw_on (board s) = false.
Proof.
  intros s.
  assert (Hs : reachable s) by (exists drawn_game_prefix; split; reflexivity).
  destruct (active_game_is_open s Hs eq_refl) as (Hw & Hd & _).
  split; [exact Hw|exact Hd].
Defined.

Lemma three_in_a_row_put_off_line (b : Board) (i : Z) (v : Cell) (l : WinLine) :
  ~ on_line i l -> three_in_a_row (put b i v) l <-> three_in_a_row b l.
Proof.
  intros Hoff. unfold three_in_a_row, on_line in *.
  rewrite !get_put_ne by tauto. done.
Qed.

Lemma three_in_a_row_put_on_line (b : Board) (i : Z) (m : Mark) (l : WinLine) :
  get b i = Some Empty -> on_line i l ->
  three_in_a_row (put b i (Mk m)) l -> line_of m (put b i (Mk m)) l.
Proof.
  intros He Hon (m' & H1 & H2 & H3).
  assert (Hi : get (put b i (Mk m)) i = Some (Mk m)) by (by eapply get_put_eq).
  assert (m' = m) as ->; [|done].
  destruct Hon as [->|[->| ->]]; congruence.
Qed.

Lemma on_line_dec (i : Z) (l : WinLine) : {on_line i l} + {~ on_line i l}.
Proof.
  unfold on_line.
  destruct (decide (i = l.1.1 \/ i = l.1.2 \/ i = l.2)); [by left|by right].
Qed.

Lemma checkWin_on_Some_complete (b : Board) (l : WinLine) :
  checkWin_on b = Some l -> l ∈ WINNING_COMBINATIONS /\ three_in_a_row b l.
Proof.
  intros (k & Hk & Hc & _)%checkWin_loop_Some. split.
  - by eapply list_elem_of_lookup_2.
  - by apply line_complete_iff.
Qed.

Lemma checkWin_on_None_complete (b : Board) (l : WinLine) :
  checkWin_on b = None -> l ∈ WINNING_COMBINATIONS -> ~ three_in_a_row b l.
Proof.
  intros Hn Hl H3. apply line_complete_iff in H3.
  unfold checkWin_on in Hn. rewrite checkWin_loop_None in Hn.
  specialize (Hn l Hl). congruence.
Qed.

Lemma new_line_owned (b : Board) (i : Z) (m : Mark) (l : WinLine) :
  get b i = Some Empty -> checkWin_on b = None ->
  checkWin_on (put b i (Mk m)) = Some l ->
  l ∈ WINNING_COMBINATIONS /\ on_line i l /\ line_of m (put b i (Mk m)) l.
Proof.
  intros He Hn [Hl H3]%checkWin_on_Some_complete. split; [done|].
  destruct (on_line_dec i l) as [Hon|Hoff].
  - split; [done|]. by apply three_in_a_row_put_on_line.
  - apply three_in_a_row_put_off_line in H3; [|done].
    by destruct (checkWin_on_None_complete b l).
Qed.

(** X7: when a [makeMove] of a session ends in a win, the line it reports
    is one of the eight, runs through the cell just played, and holds three
    marks of the player who moved, the player recorded as winner. *)
Theorem winning_line_belongs_to_mover (s : GameState) (index : Z) (line : WinLine) :
  reachable s ->
  (makeMove index s).1 = Win line ->
  line ∈ WINNING_COMBINATIONS /\ on_line index line /\
  line_of (currentPlayer s) (board (makeMove index s).2) line /\
  winner (makeMove index s).2 = Some (currentPlayer s).
Proof.
  intros Hr Hres.
  destruct (makeMove_cases s index) as [[E _]|(Ha & He & H)];
    [rewrite E in Hres; done|].
  destruct (reachable_in_progress_ok s Hr Ha) as (Hn & _).
  destruct H as [(line' & Hl & E)|[(_ & _ & E)|(_ & _ & E)]];
    rewrite E in Hres |- *; try done.
  injection Hres as ->. simpl.
  destruct (new_line_owned _ _ _ _ He Hn Hl) as (? & ? & ?). done.
Qed.

Lemma winning_line_belongs_to_mover_witness :
  let s := run [EvMove 0; EvMove 3; EvMove 1; EvMove 4] initialGameState in
  line_of X (board (makeMove 2 s).2) (0, 1, 2).
Proof.
  intros s.
  assert (Hs : reachable s).
  { exists [EvMove 0; EvMove 3; EvMove 1; EvMove 4]. split; reflexivity. }
  destruct (winning_line_belongs_to_mover s 2 (0, 1, 2) Hs eq_refl)
    as (_ & _ & H & _).
  exact H.
Defined.

(** ** The computer's turn *)

Lemma bestMove_of_is_Some (rnd : Q) (b : Board) :
  random_ok rnd = true -> is_Some (bestMove_of rnd b).
Proof.
  intros Hrnd. unfold bestMove_of.
  case_bool_decide as Hlen; [done|].
  destruct (find (wins_with O b) _); [done|].
  destruct (find (wins_with X b) _); [done|].
  destruct (includes _ 4); [done|].
  assert (Hpick : forall arr, (0 < length arr)%nat ->
                              is_Some (random_element rnd arr)).
  { intros arr Harr. destruct (random_element_is_Some rnd arr Hrnd Harr)
      as (x & -> & _). done. }
  repeat case_bool_decide; apply Hpick; [done|done|lia].
Qed.

Lemma bestMove_of_minus_one (rnd : Q) (b : Board) :
  bestMove_of rnd b = Some (-1) <-> checkDraw_on b = true.
Proof.
  split.
  - intros [[_ Hfull]|He]%bestMove_of_empty.
    + destruct (checkDraw_on b) eqn:Hd; [done|].
      apply checkDraw_on_false in Hd as [i Hi]. by destruct (Hfull i).
    + apply get_Some_in_range in He. lia.
  - intros Hd. unfold bestMove_of. rewrite bool_decide_eq_true_2; [done|].
    destruct (emptyIndices_of b) as [|i l] eqn:E; [done|].
    assert (Hi : get b i = Some Empty).
    { apply elem_of_emptyIndices_of. rewrite E. left. }
    rewrite checkDraw_on_iff in Hd. by destruct (Hd i Empty Hi).
Qed.



(** X9: when the timer callback runs on an active game of a session, with
    a random number in [0, 1), it completes normally, writes exactly one O,
    into the empty cell [findBestMove] chose, touches no other cell and
    clears [isComputerTurn]. *)
Theorem computerTurn_places_one_mark (rnd : Q) (s : GameState) :
  reachable s -> gameActive s = true -> random_ok rnd = true ->
  exists i,
    (findBestMove rnd s).1 = Some i /\ 0 <= i <= 8 /\
    get (board s) i = Some Empty /\
    (computerTurn rnd s).1 = Normal /\
    board (computerTurn rnd s).2 = put (board s) i (Mk O) /\
    get (board (computerTurn rnd s).2) i = Some (Mk O) /\
    (forall j, j <> i ->
       get (board (computerTurn rnd s).2) j = get (board s) j) /\
    isComputerTurn (computerTurn rnd s).2 = false /\
    mode (computerTurn rnd s).2 = mode s.
Proof.
  intros Hr Ha Hrnd.
  destruct (reachable_in_progress_ok s Hr Ha) as [_ Hd].
  destruct (reachable_session_ok s Hr) as (Hlen & _).
  pose proof (bestMove_of_is_Some rnd (board s) Hrnd) as [k Hk].
  rewrite findBestMove_eq. simpl.
  destruct (computerTurn_cases rnd s) as [[? _]|[_ H]]; [congruence|].
  destruct H as [[E _]|[[E _]|(i & Hi & He & H)]]; [congruence| |].
  { apply bestMove_of_minus_one in E. congruence. }
  exists i. split; [done|].
  split; [apply get_Some_in_range in He; lia|]. split; [done|].
  assert (Hget : get (put (board s) i (Mk O)) i = Some (Mk O))
    by (by eapply get_put_eq).
  assert (Hoth : forall j, j <> i ->
            get (put (board s) i (Mk O)) j = get (board s) j).
  { intros j Hj. apply get_put_ne. congruence. }
  by destruct H as [(line & _ & ->)|[(_ & _ & ->)|(_ & _ & ->)]].
Qed.

Lemma computerTurn_places_one_mark_witness :
  let s := run [EvSelectMode VsComputer; EvMove 0] initialGameState in
  exists i, board (computerTurn (1 # 4) s).2 = put (board s) i (Mk O) /\
            get (board s) i = Some Empty.
Proof.
  intros s.
  assert (Hs : reachable s).
  { exists [EvSelectMode VsComputer; EvMove 0]. split; reflexivity. }
  destruct (computerTurn_places_one_mark (1 # 4) s Hs eq_refl eq_refl)
    as (i & _ & _ & He & _ & Hb & _).
  exists i. split; [exact Hb|exact He].
Defined.

Lemma least_win_unique (m : Mark) (b : Board) (i j : Z) :
  least_win m b i -> least_win m b j -> i = j.
Proof. intros [Hi Hmi] [Hj Hmj]. specialize (Hmi j Hj). specialize (Hmj i Hi). lia. Qed.

Lemma bestMove_of_win (rnd : Q) (b : Board) (i : Z) :
  least_win O b i -> bestMove_of rnd b = Some i.
Proof.
  intros Hi. unfold bestMove_of.
  assert (Hin : i ∈ emptyIndices_of b).
  { apply elem_of_emptyIndices_of. by destruct Hi as [[? _] _]. }
  rewrite bool_decide_eq_false_2.
  2:{ intros Hl%nil_length_inv. rewrite Hl in Hin. by apply elem_of_nil in Hin. }
  pose proof (find_wins_with O b) as HO.
  destruct (find (wins_with O b) _) as [k|].
  - f_equal. by eapply least_win_unique.
  - by destruct (HO i), Hi.
Qed.

Lemma bestMove_of_block (rnd : Q) (b : Board) (i : Z) :
  (forall j, ~ wins_at O b j) -> least_win X b i -> bestMove_of rnd b = Some i.
Proof.
  intros HnO Hi. unfold bestMove_of.
  assert (Hin : i ∈ emptyIndices_of b).
  { apply elem_of_emptyIndices_of. by destruct Hi as [[? _] _]. }
  rewrite bool_decide_eq_false_2.
  2:{ intros Hl%nil_length_inv. rewrite Hl in Hin. by apply elem_of_nil in Hin. }
  pose proof (find_wins_with O b) as HO.
  destruct (find (wins_with O b) _) as [k|]; [by destruct (HnO k), HO|].
  pose proof (find_wins_with X b) as HX.
  destruct (find (wins_with X b) _) as [k|].
  - f_equal. by eapply least_win_unique.
  - by destruct (HX i), Hi.
Qed.

(** X10: when an O in some empty cell would complete a line, the timer
    callback on an active game writes the O into the lowest such cell and
    ends the game: it clears [gameActive] and records as winner whoever
    [currentPlayer] names at that moment.  If the board had no line before,
    the new board has a line of three O through that cell. *)
Theorem computer_takes_win (rnd : Q) (s : GameState) (i : Z) :
  gameActive s = true -> least_win O (board s) i ->
  let s' := (computerTurn rnd s).2 in
  board s' = put (board s) i (Mk O) /\
  gameActive s' = false /\
  winner s' = Some (currentPlayer s) /\
  is_Some (checkWin_on (board s')) /\
  (checkWin_on (board s) = None ->
   exists line, checkWin_on (board s') = Some line /\ on_line i line /\
                line_of O (board s') line).
Proof.
  intros Ha Hi s'. subst s'.
  pose proof (bestMove_of_win rnd _ _ Hi) as Hbest.
  destruct Hi as [[He Hw] _].
  destruct (computerTurn_cases rnd s) as [[? _]|[_ H]]; [congruence|].
  destruct H as [[E _]|[[E _]|(k & Hk & _ & H)]]; [congruence| |].
  { rewrite Hbest in E. injection E as ->. apply get_Some_in_range in He. lia. }
  rewrite Hbest in Hk. injection Hk as <-.
  destruct H as [(line & Hl & ->)|[(Hl & _ & _)|(Hl & _ & _)]];
    [|rewrite Hl in Hw; by destruct Hw..].
  simpl. rewrite Hl. repeat split; [done|].
  intros Hn. exists line. split; [done|].
  by destruct (new_line_owned _ _ _ _ He Hn Hl) as (_ & ? & ?).
Qed.

Lemma computer_takes_win_witness :
  let s := mkGameState
             [Mk O; Mk X; Mk X; Empty; Mk O; Mk X; Empty; Empty; Empty]
             O true None (Some VsComputer) true in
  board (computerTurn (1 # 2) s).2 = put (board s) 8 (Mk O) /\
  winner (computerTurn (1 # 2) s).2 = Some O.
Proof.
  intros s.
  assert (Hleast : least_win O (board s) 8).
  { split; [split; [reflexivity|by eexists]|].
    intros j [Hj Hw]. pose proof (get_Some_in_range _ _ _ Hj) as Hr.
    simpl in Hr.
    assert (Hc : j = 0 \/ j = 1 \/ j = 2 \/ j = 3 \/ j = 4 \/ j = 5 \/
                 j = 6 \/ j = 7 \/ j = 8) by lia.
    destruct Hc as [->|[->|[->|[->|[->|[->|[->|[->| ->]]]]]]]];
      try discriminate Hj; try lia; by destruct Hw. }
  destruct (computer_takes_win (1 # 2) s 8 eq_refl Hleast) as (Hb & _ & Hw & _).
  split; [exact Hb|exact Hw].
Defined.

Lemma put_commute (b : Board) (i j : Z) (v w : Cell) :
  i <> j -> put (put b i v) j w = put (put b j w) i v.
Proof.
  intros Hne. unfold put.
  destruct (Z.ltb_spec i 0), (Z.ltb_spec j 0); try done.
  apply list_insert_insert_ne. lia.
Qed.

Lemma checkWin_on_is_Some (b : Board) (l : WinLine) :
  l ∈ WINNING_COMBINATIONS -> three_in_a_row b l -> is_Some (checkWin_on b).
Proof.
  intros Hl H3. destruct (checkWin_on b) eqn:E; [done|].
  by destruct (checkWin_on_None_complete b l).
Qed.

Lemma block_adds_no_threat (b : Board) (i j : Z) :
  get b i = Some Empty ->
  checkWin_on (put b i (Mk O)) = None ->
  wins_at X (put b i (Mk O)) j -> wins_at X b j /\ j <> i.
Proof.
  intros He Hn [Hj Hw].
  assert (Hne : j <> i).
  { intros ->. rewrite (get_put_eq _ _ _ _ He) in Hj. done. }
  split; [|done]. rewrite get_put_ne in Hj by done. split; [done|].
  destruct Hw as [l Hl]. apply checkWin_on_Some_complete in Hl as [Hin H3].
  destruct (on_line_dec i l) as [Hon|Hoff].
  - exfalso. destruct H3 as (m & H1 & H2 & H3).
    assert (Hio : get (put (put b i (Mk O)) j (Mk X)) i = Some (Mk O)).
    { rewrite get_put_ne by done. by eapply get_put_eq. }
    assert (m = O) as -> by (destruct Hon as [->|[->| ->]]; congruence).
    assert (Hjx : get (put (put b i (Mk O)) j (Mk X)) j = Some (Mk X)).
    { eapply get_put_eq. by rewrite get_put_ne. }
    assert (Hoffj : ~ on_line j l).
    { intros [->|[->| ->]]; congruence. }
    apply (checkWin_on_None_complete _ l Hn Hin).
    apply (three_in_a_row_put_off_line _ j (Mk X) l Hoffj). by exists O.
  - rewrite put_commute in H3 by done.
    apply three_in_a_row_put_off_line in H3; [|done].
    by eapply checkWin_on_is_Some.
Qed.

(** X11: when no O can complete a line but an X in some empty cell would,
    the timer callback on an active game writes its O into the lowest such
    cell.  Nobody has won by that, the winner field is untouched, the game
    stays active unless the board is now full, and X can complete a line
    on the new board only where it could before, the blocked cell apart. *)
Theorem computer_blocks (rnd : Q) (s : GameState) (i : Z) :
  gameActive s = true ->
  (forall j, ~ wins_at O (board s) j) ->
  least_win X (board s) i ->
  let s' := (computerTurn rnd s).2 in
  board s' = put (board s) i (Mk O) /\
  checkWin_on (board s') = None /\
  winner s' = winner s /\
  gameActive s' = negb (checkDraw_on (board s')) /\
  (forall j, wins_at X (board s') j -> wins_at X (board s) j /\ j <> i).
Proof.
  intros Ha HnO Hi s'. subst s'.
  pose proof (bestMove_of_block rnd _ _ HnO Hi) as Hbest.
  destruct Hi as [[He Hw] _].
  destruct (computerTurn_cases rnd s) as [[? _]|[_ H]]; [congruence|].
  destruct H as [[E _]|[[E _]|(k & Hk & _ & H)]]; [congruence| |].
  { rewrite Hbest in E. injection E as ->. apply get_Some_in_range in He. lia. }
  rewrite Hbest in Hk. injection Hk as <-.
  destruct H as [(line & Hl & _)|[(Hl & Hd & ->)|(Hl & Hd & ->)]].
  { destruct (HnO i). split; [done|]. by rewrite Hl. }
  all: simpl; rewrite Hd; do 4 (split; [done|]);
    intros j Hj; by destruct (block_adds_no_threat _ _ _ He Hl Hj).
Qed.

Lemma computer_blocks_witness :
  let s := mkGameState
             [Mk X; Mk X; Empty; Empty; Mk O; Empty; Empty; Empty; Empty]
             O true None (Some VsComputer) true in
  board (computerTurn (1 # 2) s).2 = put (board s) 2 (Mk O) /\
  forall j, ~ wins_at X (board (computerTurn (1 # 2) s).2) j.
Proof.
  intros s.
  assert (Hgrid : forall j c, get (board s) j = Some c ->
            j = 0 \/ j = 1 \/ j = 2 \/ j = 3 \/ j = 4 \/ j = 5 \/
            j = 6 \/ j = 7 \/ j = 8).
  { intros j c Hj. apply get_Some_in_range in Hj. simpl in Hj. lia. }
  assert (HnO : forall j, ~ wins_at O (board s) j).
  { intros j [Hj Hw]. destruct (Hgrid j _ Hj)
      as [->|[->|[->|[->|[->|[->|[->|[->| ->]]]]]]]];
      try discriminate Hj; by destruct Hw. }
  assert (Honly : forall j, wins_at X (board s) j -> j = 2).
  { intros j [Hj Hw]. destruct (Hgrid j _ Hj)
      as [->|[->|[->|[->|[->|[->|[->|[->| ->]]]]]]]];
      try discriminate Hj; try done; by destruct Hw. }
  assert (Hleast : least_win X (board s) 2).
  { split; [split; [reflexivity|by eexists]|].
    intros j Hj. rewrite (Honly j Hj). lia. }
  destruct (computer_blocks (1 # 2) s 2 eq_refl HnO Hleast)
    as (Hb & _ & _ & _ & Hthreat).
  split; [exact Hb|].
  intros j Hj. destruct (Hthreat j Hj) as [Hold Hne].
  apply Hne, Honly, Hold.
Defined.

(** ** The page *)

Lemma handleCellClick_eq (index : Z) (s : GameState) :
  (handleCellClick index s).2 =
  if isComputerTurn s then s else (makeMove index s).2.
Proof.
  unfold handleCellClick, mbind, State_bind, gets, ret.
  destruct (isComputerTurn s); [done|]. by destruct (makeMove index s).
Qed.

(** A click starts a timer exactly when [makeMove] went on to
    [makeComputerMove]: the move continued the game in vs-computer mode and
    was X's. *)
Lemma makeMove_sets_flag_iff (index : Z) (s : GameState) :
  isComputerTurn s = false ->
  (isComputerTurn (makeMove index s).2 = true <->
   (makeMove index s).1 = Continue /\ mode s = Some VsComputer /\
   currentPlayer s = X).
Proof.
  intros Hb. destruct (makeMove_cases s index) as [[-> _]|(_ & _ & H)].
  { simpl. rewrite Hb. split; [done|by intros [? _]]. }
  destruct H as [(line & _ & ->)|[(_ & _ & ->)|(_ & _ & ->)]]; simpl;
    rewrite ?Hb; try (split; [done|by intros [? _]]).
  destruct (currentPlayer s), (mode s) as [[]|]; simpl; rewrite ?Hb;
    split; try done; by intros (_ & ? & ?).
Qed.

Lemma computerTurn_clears_flag (rnd : Q) (s : GameState) :
  random_ok rnd = true -> isComputerTurn (computerTurn rnd s).2 = false.
Proof.
  intros Hrnd. pose proof (bestMove_of_is_Some rnd (board s) Hrnd) as [k Hk].
  destruct (computerTurn_cases rnd s) as [[_ ->]|[_ H]]; [done|].
  destruct H as [[E _]|[[_ ->]|(i & _ & _ & H)]]; [congruence|done|].
  by destruct H as [(line & _ & ->)|[(_ & _ & ->)|(_ & _ & ->)]].
Qed.

Lemma page_step_flag (p p' : Page) (e : PageEvent) :
  (isComputerTurn (game p) = true -> (0 < pendingTimers p)%nat) ->
  page_step p e = Some p' ->
  isComputerTurn (game p') = true -> (0 < pendingTimers p')%nat.
Proof.
  intros Hp Hstep. destruct e as [m| | |index|rnd]; simpl in Hstep.
  - by injection Hstep as <-.
  - by injection Hstep as <-.
  - by injection Hstep as <-.
  - injection Hstep as <-. simpl. rewrite handleCellClick_eq.
    destruct (isComputerTurn (game p)) eqn:Hb; simpl; [auto|].
    intros ->. lia.
  - destruct (pendingTimers p) as [|n]; [done|].
    destruct (random_ok rnd) eqn:Hrnd; [|done]. injection Hstep as <-. simpl.
    by rewrite computerTurn_clears_flag.
Qed.

Lemma page_run_flag (events : list PageEvent) (p p' : Page) :
  (isComputerTurn (game p) = true -> (0 < pendingTimers p)%nat) ->
  page_run events p = Some p' ->
  isComputerTurn (game p') = true -> (0 < pendingTimers p')%nat.
Proof.
  revert p. induction events as [|e events IH]; intros p Hp Hrun.
  - by injection Hrun as <-.
  - simpl in Hrun. destruct (page_step p e) as [p1|] eqn:Hstep; [|done].
    eapply IH; [|done]. by eapply page_step_flag.
Qed.

(** X12: while [isComputerTurn] is set a click changes nothing, and on the
    page this never lasts: in every page state that events can produce, a
    set flag comes with a pending timer, and when that timer fires the flag
    is cleared. *)
Theorem blocked_clicks_end (events : list PageEvent) (p : Page) :
  page_run events initialPage = Some p ->
  isComputerTurn (game p) = true ->
  (forall index, page_step p (PgClick index) = Some p) /\
  (0 < pendingTimers p)%nat /\
  (forall rnd, random_ok rnd = true ->
     exists p', page_step p (PgTimer rnd) = Some p' /\
                isComputerTurn (game p') = false /\
                pendingTimers p' = pred (pendingTimers p)).
Proof.
  intros Hrun Hbusy.
  assert (Hpos : (0 < pendingTimers p)%nat).
  { eapply (page_run_flag events initialPage); [done|done|done]. }
  split; [|split; [done|]].
  - intros index. simpl. rewrite handleCellClick_eq, Hbusy. simpl.
    by destruct p.
  - intros rnd Hrnd. simpl. destruct (pendingTimers p) as [|n]; [lia|].
    rewrite Hrnd. eexists. split; [done|]. simpl.
    split; [by apply computerTurn_clears_flag|done].
Qed.

Lemma blocked_clicks_end_witness :
  let p := mkPage (run [EvSelectMode VsComputer; EvMove 0] initialGameState) 1 in
  page_step p (PgClick 4) = Some p /\ (0 < pendingTimers p)%nat.
Proof.
  intros p.
  assert (Hrun : page_run [PgSelectMode VsComputer; PgClick 0] initialPage
                 = Some p) by reflexivity.
  destruct (blocked_clicks_end _ p Hrun eq_refl) as (Hclick & Hpos & _).
  split; [exact (Hclick 4)|exact Hpos].
Defined.

Lemma count_cell_put_same (m : Mark) (b : Board) (i : Z) :
  get b i = Some Empty ->
  count_cell (Mk m) (put b i (Mk m)) = S (count_cell (Mk m) b).
Proof.
  intros He. pose proof (count_cell_put (Mk m) (Mk m) _ _ _ He) as H.
  rewrite decide_False, decide_True in H by done. lia.
Qed.

Lemma count_cell_put_other (m m' : Mark) (b : Board) (i : Z) :
  m <> m' -> get b i = Some Empty ->
  count_cell (Mk m') (put b i (Mk m)) = count_cell (Mk m') b.
Proof.
  intros Hne He. pose proof (count_cell_put (Mk m') (Mk m) _ _ _ He) as H.
  rewrite !decide_False in H by congruence. lia.
Qed.

Lemma vs_game_ok_click (g : GameState) (t : nat) (index : Z) (p' : Page) :
  vs_game_ok (mkPage g t) ->
  page_step (mkPage g t) (PgClick index) = Some p' ->
  vs_game_ok p'.
Proof.
  intros Hok Hstep. simpl in Hstep. injection Hstep as <-.
  rewrite handleCellClick_eq.
  destruct (isComputerTurn g) eqn:Hb; simpl; [done|].
  destruct (makeMove_cases g index) as [[-> _]|(Ha & He & H)].
  { simpl. by rewrite Hb. }
  destruct Hok as (Hmode & Hturn & Hprog & Hwin). simpl in *.
  rewrite Ha in Hturn.
  destruct (currentPlayer g) eqn:Hcp; [|destruct Hturn; congruence].
  destruct Hturn as (_ & -> & Hcount & Hnow).
  destruct (Hprog Ha) as [Hn _].
  pose proof (count_cell_put_same X _ _ He) as HcX.
  pose proof (count_cell_put_other X O _ _ ltac:(done) He) as HcO.
  destruct H as [(line & Hl & ->)|[(Hl & Hd & ->)|(Hl & Hd & ->)]];
    unfold vs_game_ok, after_continue; simpl; rewrite ?Hb, ?Hcp, ?Hmode; simpl.
  - split; [done|]. split; [split; [done|]; split; [done|]; split; [lia|by right]|].
    split; [by intros ?|]. intros w [= <-].
    destruct (new_line_owned _ _ _ _ He Hn Hl) as (? & _ & ?). eauto.
  - split; [done|]. split; [split; [done|]; split; [done|]; split; [lia|by left]|].
    split; [by intros ?|]. intros w Hw. congruence.
  - split; [done|]. split; [split; [done|]; split; [done|]; split; [lia|done]|].
    split; [by intros _|]. intros w Hw. congruence.
Qed.

Lemma vs_game_ok_timer (g : GameState) (t : nat) (rnd : Q) (p' : Page) :
  vs_game_ok (mkPage g t) ->
  page_step (mkPage g t) (PgTimer rnd) = Some p' ->
  vs_game_ok p'.
Proof.
  intros Hok Hstep. simpl in Hstep. destruct t as [|n]; [done|].
  destruct (random_ok rnd) eqn:Hrnd; [|done]. injection Hstep as <-.
  destruct Hok as (Hmode & Hturn & Hprog & Hwin). simpl in *.
  destruct (gameActive g) eqn:Ha, (currentPlayer g) eqn:Hcp;
    try (destruct Hturn as (_ & ? & _); done).
  destruct Hturn as (Hb & [= ->] & Hcount & Hnow).
  destruct (Hprog Ha) as [Hn Hnd].
  pose proof (bestMove_of_is_Some rnd (board g) Hrnd) as [k Hk].
  destruct (computerTurn_cases rnd g) as [[? _]|[_ H]]; [congruence|].
  destruct H as [[E _]|[[E _]|(i & _ & He & H)]]; [congruence| |].
  { apply bestMove_of_minus_one in E. congruence. }
  pose proof (count_cell_put_same O _ _ He) as HcO.
  pose proof (count_cell_put_other O X _ _ ltac:(done) He) as HcX.
  destruct H as [(line & Hl & ->)|[(Hl & Hd & ->)|(Hl & Hd & ->)]];
    unfold vs_game_ok; simpl; rewrite ?Hcp, ?Hmode; simpl.
  - split; [done|]. split; [split; [done|]; split; [done|]; split; [lia|by right]|].
    split; [by intros ?|]. intros w [= <-].
    destruct (new_line_owned _ _ _ _ He Hn Hl) as (? & _ & ?). eauto.
  - split; [done|]. split; [split; [done|]; split; [done|]; split; [lia|by left]|].
    split; [by intros ?|]. intros w Hw. congruence.
  - split; [done|]. split; [split; [done|]; split; [done|]; split; [lia|done]|].
    split; [by intros _|]. intros w Hw. congruence.
Qed.

Lemma vs_game_ok_run (events : list PageEvent) (p p' : Page) :
  forallb same_game events = true ->
  vs_game_ok p -> page_run events p = Some p' -> vs_game_ok p'.
Proof.
  revert p. induction events as [|e events IH]; intros p Hsame Hok Hrun.
  - by injection Hrun as <-.
  - simpl in Hsame, Hrun. apply andb_true_iff in Hsame as [He Hsame].
    destruct (page_step p e) as [p1|] eqn:Hstep; [|done].
    apply (IH p1); [done| |done]. destruct p as [g t].
    destruct e as [m| | |index|rnd]; try done.
    + by eapply vs_game_ok_click.
    + by eapply vs_game_ok_timer.
Qed.

Lemma vs_game_ok_start (g0 : GameState) :
  vs_game_ok (mkPage (selectMode VsComputer g0).2 0).
Proof.
  split; [done|]. split; [done|]. split; [by intros _|]. by intros w.
Qed.

(** X13: a vs-computer game that starts from the mode screen with no timer
    pending and is played on by clicks and timer callbacks alone stays in
    step.  At most one timer is pending; [isComputerTurn] is set exactly
    while it is, which is exactly while the game is active with O to move;
    X has as many marks on the board as O or one more; and a recorded
    winner is the player who moved last and owns a complete line. *)
Theorem vs_computer_game_in_step (g0 : GameState) (events : list PageEvent)
    (p : Page) :
  forallb same_game events = true ->
  page_run events (mkPage (selectMode VsComputer g0).2 0) = Some p ->
  let g := game p in
  mode g = Some VsComputer /\
  (pendingTimers p <= 1)%nat /\
  (isComputerTurn g = true <-> pendingTimers p = 1%nat) /\
  (isComputerTurn g = true <-> gameActive g = true /\ currentPlayer g = O) /\
  (count_cell (Mk X) (board g) = count_cell (Mk O) (board g) \/
   count_cell (Mk X) (board g) = S (count_cell (Mk O) (board g))) /\
  (gameActive g = true ->
     winner g = None /\
     count_cell (Mk X) (board g) =
       (count_cell (Mk O) (board g)
        + if decide (currentPlayer g = O) then 1 else 0)%nat) /\
  (forall w, winner g = Some w ->
     w = currentPlayer g /\
     exists line, line ∈ WINNING_COMBINATIONS /\ line_of w (board g) line).
Proof.
  intros Hsame Hrun g.
  pose proof (vs_game_ok_run events _ p Hsame (vs_game_ok_start g0) Hrun)
    as (Hmode & Hturn & _ & Hwin).
  fold g in Hmode, Hturn, Hwin.
  split; [done|].
  destruct (gameActive g), (currentPlayer g);
    destruct Hturn as (Hb & Ht & Hc & Hw); rewrite Hb, Ht, Hc;
    (split; [lia|]); (split; [split; intros; (done || lia)|]);
    (split; [split; [done|by intros [? ?]]|]);
    (split; [lia|]);
    (split; [first [done | intros _; simpl; split; [done|lia]]|]);
    intros w Hwn;
    (split; [first [congruence | destruct Hw; congruence]|by apply Hwin]).
Qed.

Lemma vs_computer_game_in_step_witness :
  let events := [PgClick 0; PgClick 1; PgTimer (1 # 2); PgClick 8] in
  exists p,
    page_run events (mkPage (selectMode VsComputer initialGameState).2 0) = Some p
    /\ pendingTimers p = 1%nat /\ isComputerTurn (game p) = true.
Proof.
  intros events. eexists. split; [reflexivity|].
  pose proof (vs_computer_game_in_step initialGameState events _ eq_refl eq_refl)
    as (_ & _ & Hflag & _).
  split; [reflexivity|]. apply Hflag. reflexivity.
Defined.

Lemma computerTurn_fresh (rnd : Q) (md : option Mode) (busy : bool) :
  computerTurn rnd
    (mkGameState (replicate 9 Empty) X true None md busy) =
  (Normal,
   mkGameState (put (replicate 9 Empty) 4 (Mk O)) O true None md false).
Proof. vm_compute. reflexivity. Qed.

(** X14: nothing cancels the timer of [makeComputerMove].  When the game
    is started afresh (restart button, mode screen, mode button) while a
    timer is pending, the timer still fires into the new game: the
    computer opens with an O in the centre, the turn passes to O, and the
    next click on a free cell writes an O as well.  In such a session a
    line of three O can end up recorded as a win of X. *)
Theorem reset_keeps_pending_timer (p : Page) (e : PageEvent) (n : nat) (rnd : Q) :
  same_game e = false ->
  pendingTimers p = S n ->
  random_ok rnd = true ->
  (exists p',
     page_run [e; PgTimer rnd] p = Some p' /\
     pendingTimers p' = n /\
     board (game p') = put (replicate 9 Empty) 4 (Mk O) /\
     currentPlayer (game p') = O /\
     gameActive (game p') = true /\
     isComputerTurn (game p') = false /\
     (forall index, 0 <= index <= 8 -> index <> 4 ->
        exists p'', page_step p' (PgClick index) = Some p'' /\
          get (board (game p'')) index = Some (Mk O) /\
          currentPlayer (game p'') = X)) /\
  (exists q, page_run restart_race initialPage = Some q /\
     winner (game q) = Some X /\
     checkWin_on (board (game q)) = Some (2, 4, 6) /\
     line_of O (board (game q)) (2, 4, 6)).
Proof.
  intros He Hp Hrnd. split.
  - assert (Hrun : exists md,
      page_run [e; PgTimer rnd] p =
      Some (mkPage (mkGameState (put (replicate 9 Empty) 4 (Mk O)) O true None
                      md false) n)).
    { assert (H1 : forall g, (restartGame g).2 =
                mkGameState (replicate 9 Empty) X true None (mode g) false)
        by reflexivity.
      assert (H2 : forall g, (showModeSelection g).2 =
                mkGameState (replicate 9 Empty) X true None (mode g) false)
        by reflexivity.
      assert (H3 : forall m g, (selectMode m g).2 =
                mkGameState (replicate 9 Empty) X true None (Some m) false)
        by reflexivity.
      destruct e as [m| | |index|rnd']; try discriminate He;
        cbn [page_run page_step game pendingTimers];
        rewrite Hp, Hrnd, ?H1, ?H2, ?H3, computerTurn_fresh; eexists;
        reflexivity. }
    destruct Hrun as [md ->]. eexists. split; [reflexivity|].
    do 5 (split; [reflexivity|]).
    intros index Hi Hne.
    assert (Hc : index = 0 \/ index = 1 \/ index = 2 \/ index = 3 \/
                 index = 5 \/ index = 6 \/ index = 7 \/ index = 8) by lia.
    destruct md as [[]|];
      destruct Hc as [->|[->|[->|[->|[->|[->|[->| ->]]]]]]];
      (eexists; split; [reflexivity|split; reflexivity]).
  - eexists. split; [vm_compute; reflexivity|].
    split; [reflexivity|]. split; [vm_compute; reflexivity|].
    repeat split; vm_compute; reflexivity.
Qed.

Lemma reset_keeps_pending_timer_witness :
  let p := mkPage (run [EvSelectMode VsComputer; EvMove 0] initialGameState) 1 in
  exists p', page_run [PgRestart; PgTimer (1 # 3)] p = Some p' /\
             currentPlayer (game p') = O /\
             get (board (game p')) 4 = Some (Mk O).
Proof.
  intros p.
  destruct (reset_keeps_pending_timer p PgRestart 0 (1 # 3) eq_refl eq_refl eq_refl)
    as [(p' & Hrun & _ & Hb & Hcp & _) _].
  exists p'. split; [exact Hrun|]. split; [exact Hcp|].
  rewrite Hb. reflexivity.
Defined.

(** ** Turn order on the board *)

Lemma turns_ok_makeMove (s : GameState) (index : Z) :
  turns_ok s -> turns_ok (makeMove index s).2.
Proof.
  unfold turns_ok. intros Hs.
  destruct (makeMove_cases s index) as [[-> _]|(Ha & He & H)]; [done|].
  rewrite Ha in Hs.
  destruct H as [(line & _ & ->)|[(_ & _ & ->)|(_ & _ & ->)]]; simpl;
    destruct (currentPlayer s); simpl;
    rewrite ?(count_cell_put_same _ _ _ He),
            ?(count_cell_put_other X O _ _ ltac:(done) He),
            ?(count_cell_put_other O X _ _ ltac:(done) He); lia.
Qed.

Lemma turns_ok_playMoves (indices : list Z) (s : GameState) :
  turns_ok s -> turns_ok (playMoves indices s).2.
Proof.
  revert s. induction indices as [|index l IH]; intros s Hs; [done|].
  rewrite playMoves_cons. cbn [snd]. by apply IH, turns_ok_makeMove.
Qed.

(** X15: after any run of [makeMove] calls from a reset the board is a
    position of a game in which X began and the players took turns: X has
    as many marks as O, or one more, and in an active game the one more
    exactly when O is to move.  The marks on the board are the accepted
    calls. *)
Theorem makeMove_keeps_turn_order (indices : list Z) (s0 : GameState) :
  let s := (playMoves indices (resetGameState s0).2).2 in
  (count_cell (Mk X) (board s) = count_cell (Mk O) (board s) \/
   count_cell (Mk X) (board s) = S (count_cell (Mk O) (board s))) /\
  (gameActive s = true ->
   count_cell (Mk X) (board s) =
     (count_cell (Mk O) (board s)
      + if decide (currentPlayer s = O) then 1 else 0)%nat) /\
  (count_cell (Mk X) (board s) + count_cell (Mk O) (board s) =
   count_accepted (playMoves indices (resetGameState s0).2).1)%nat.
Proof.
  intros s.
  assert (Hturns : turns_ok s).
  { apply turns_ok_playMoves. reflexivity. }
  split; [|split].
  - unfold turns_ok in Hturns.
    destruct (gameActive s), (currentPlayer s); lia.
  - intros Ha. unfold turns_ok in Hturns. rewrite Ha in Hturns.
    destruct (currentPlayer s); simpl; lia.
  - subst s.
    assert (Hgen : forall l g,
      (count_cell (Mk X) (board (playMoves l g).2)
       + count_cell (Mk O) (board (playMoves l g).2) =
       count_cell (Mk X) (board g) + count_cell (Mk O) (board g)
       + count_accepted (playMoves l g).1)%nat).
    { induction l as [|index l IH]; intros g; [simpl; lia|].
      rewrite playMoves_cons. cbn [fst snd]. rewrite IH.
      destruct (makeMove_cases g index) as [[-> _]|(_ & He & H)]; [simpl; lia|].
      destruct H as [(line & _ & ->)|[(_ & _ & ->)|(_ & _ & ->)]]; simpl;
        destruct (currentPlayer g); simpl;
        rewrite ?(count_cell_put_same _ _ _ He),
                ?(count_cell_put_other X O _ _ ltac:(done) He),
                ?(count_cell_put_other O X _ _ ltac:(done) He); lia. }
    rewrite Hgen. reflexivity.
Qed.

(** ** Two-player games on the page *)

Lemma makeMove_two_player (index : Z) (s : GameState) :
  mode s = Some TwoPlayer -> isComputerTurn s = false ->
  mode (makeMove index s).2 = Some TwoPlayer /\
  isComputerTurn (makeMove index s).2 = false.
Proof.
  intros Hm Hb. destruct (makeMove_cases s index) as [[-> _]|(_ & _ & H)]; [done|].
  destruct H as [(line & _ & ->)|[(_ & _ & ->)|(_ & _ & ->)]]; simpl;
    rewrite ?Hm; done.
Qed.

Lemma page_run_two_player (indices : list Z) (g : GameState) :
  mode g = Some TwoPlayer -> isComputerTurn g = false ->
  page_run (PgClick <$> indices) (mkPage g 0) =
    Some (mkPage (playMoves indices g).2 0) /\
  mode (playMoves indices g).2 = Some TwoPlayer /\
  isComputerTurn (playMoves indices g).2 = false.
Proof.
  revert g. induction indices as [|index l IH]; intros g Hm Hb; [done|].
  destruct (makeMove_two_player index g Hm Hb) as [Hm' Hb'].
  rewrite playMoves_cons. cbn [snd fmap list_fmap page_run page_step game
                               pendingTimers].
  rewrite handleCellClick_eq, Hb. cbn [negb andb]. rewrite Hb'.
  by apply IH.
Qed.

(** X16: in two-player mode, entered from the mode screen with no timer
    pending, the clicks of the page are a plain run of [makeMove] calls:
    [isComputerTurn] is never set, no timer is ever started, and no timer
    callback can run. *)
Theorem two_player_page_is_makeMove_run (g0 : GameState) (indices : list Z) :
  let start := (selectMode TwoPlayer g0).2 in
  let final := (playMoves indices start).2 in
  page_run (PgClick <$> indices) (mkPage start 0) = Some (mkPage final 0) /\
  isComputerTurn final = false /\
  mode final = Some TwoPlayer /\
  (forall rnd, page_step (mkPage final 0) (PgTimer rnd) = None).
Proof.
  intros start final.
  destruct (page_run_two_player indices start eq_refl eq_refl) as (Hrun & Hm & Hb).
  done.
Qed.
